(** * The unfinished download chunk of the renter (modules/renter/downloadchunk.go)

    A shallow embedding of the per-chunk coordination object of the renter's
    download engine, and the properties of it that the specification states.

    Go's [int] and [uint64] are integers of [Z] with the wrap-around of the
    64-bit machine written out.  The methods of the chunk run in a small
    monad over the store (the chunk and the download it points to) that
    collects the calls made to collaborators (memory manager, download,
    destination, workers) in a log and that can panic.  The mutexes are
    not modelled: every method is followed as one goroutine executes it. *)

From Stdlib Require Import ZArith Lia Bool List DecimalString.
From Stdlib.Strings Require Import Byte.
From stdpp Require Import base numbers list strings.

Local Open Scope Z_scope.

(** ** Machine integers *)

(** Go's [int] on a 64-bit platform: two's complement, wrapping silently. *)
Module GoInt.

Definition min_int : Z := - 2 ^ 63.
Definition max_int : Z := 2 ^ 63 - 1.

Definition in_range (z : Z) : Prop := min_int <= z <= max_int.

Definition wrap (z : Z) : Z := (z + 2 ^ 63) mod 2 ^ 64 - 2 ^ 63.

Definition add (a b : Z) : Z := wrap (a + b).
Definition sub (a b : Z) : Z := wrap (a - b).

(** [x++] and [x--]. *)
Definition incr (a : Z) : Z := add a 1.
Definition decr (a : Z) : Z := sub a 1.

End GoInt.

(** Go's [uint64]. *)
Module Uint64.

Definition modulus : Z := 2 ^ 64.

Definition in_range (z : Z) : Prop := 0 <= z < modulus.

Definition wrap (z : Z) : Z := z mod modulus.

Definition add (a b : Z) : Z := wrap (a + b).
Definition sub (a b : Z) : Z := wrap (a - b).
Definition mul (a b : Z) : Z := wrap (a * b).

(** The conversion [uint64(x)] of an [int]. *)
Definition of_int (x : Z) : Z := wrap x.

(** [a % b]; a zero divisor is a run-time panic. *)
Definition rem (a b : Z) : option Z :=
  if b =? 0 then None else Some (a mod b).

End Uint64.

(** ** Errors *)

(** [fmt]'s [%v] of an integer. *)
Definition fmt_v (z : Z) : string := NilZero.string_of_int (Z.to_int z).

(** The error values the chunk handles.  [errNotEnoughWorkers] is the
    package-level error of the renter; [errors.AddContext] and
    [fmt.Errorf("chunk %v failed: %v", ...)] wrap an error and are kept as
    constructors; [errOther] is any other error value, such as one returned
    by a destination. *)
Inductive error : Type :=
| errNotEnoughWorkers
| errOther (msg : string)
| AddContext (e : error) (context : string)
| Errorf_chunkFailed (chunkIndex : Z) (e : error).

(** [fmt.Sprintf("workers remaining %v, pieces completed %v, min pieces %v", ...)] *)
Definition notEnoughWorkersContext (workers pieces minPieces : Z) : string :=
  ("workers remaining " ++ fmt_v workers
   ++ ", pieces completed " ++ fmt_v pieces
   ++ ", min pieces " ++ fmt_v minPieces)%string.

(** ** Collaborators *)

(** [modules.ErasureCoder], by the two methods the chunk calls:
    [MinPieces() int] and [SupportsPartialEncoding() (uint64, bool)]. *)
Record ErasureCoder : Type := {
  MinPieces : Z;
  SupportsPartialEncoding : Z * bool
}.

(** A [[]byte]: [None] is the nil slice. *)
Definition bytes : Type := option (list byte).

(** A [[][]byte]: [None] is the nil slice. *)
Definition pieces : Type := option (list bytes).

(** [downloadDestination], by its method
    [WritePieces(ec, pieces, dataOffset, writeOffset, length) error];
    [None] is the nil error. *)
Record downloadDestination : Type := {
  WritePieces : ErasureCoder -> pieces -> Z -> Z -> Z -> option error
}.

(** A [*worker], by its address. *)
Definition worker : Type := nat.

(** Modelled from the spec: the declaration of [download] is not among the
    sources.  The chunk reads and writes one field of it, the counter
    [chunksRemaining], which the spec gives as an integer that is
    decremented; it is taken without a width. *)
Record download : Type := {
  chunksRemaining : Z
}.

(** ** The chunk *)

(** The fields of the struct, but for [masterKey], [staticChunkMap],
    [staticSpendingCategory] and [renterFile], which no method of this file
    reads, the mutex [mu], and the two pointers [staticMemoryManager] and
    [download]: calls through them are entries of the log, and the download
    itself is the second component of the store. *)
Record unfinishedDownloadChunk : Type := {
  (* Fetch + Write instructions. *)
  destination : option downloadDestination;
  erasureCode : ErasureCoder;

  staticChunkIndex : Z;
  staticCacheID : string;
  staticChunkSize : Z;
  staticFetchLength : Z;
  staticFetchOffset : Z;
  staticPieceSize : Z;
  staticWriteOffset : Z;

  staticDisableDiskFetch : bool;
  staticLatencyTarget : Z;
  staticNeedsMemory : bool;
  staticOverdrive : Z;
  staticPriority : Z;

  (* Download chunk state. *)
  completedPieces : list bool;
  failed : bool;
  physicalChunkData : pieces;
  pieceUsage : list bool;
  piecesCompleted : Z;
  piecesRegistered : Z;
  recoveryComplete : bool;
  workersRemaining : Z;
  workersStandby : list worker;

  (* Memory management variables. *)
  memoryAllocated : Z
}.

(** Assignments to fields.  [with_state] keeps the fields that are set at
    creation and takes the others. *)

Definition with_state (u : unfinishedDownloadChunk)
    (dest : option downloadDestination) (cp : list bool) (f : bool)
    (pcd : pieces) (pu : list bool) (pc pr : Z) (rc : bool) (wr : Z)
    (ws : list worker) (ma : Z) : unfinishedDownloadChunk :=
  {| destination := dest;
     erasureCode := erasureCode u;
     staticChunkIndex := staticChunkIndex u;
     staticCacheID := staticCacheID u;
     staticChunkSize := staticChunkSize u;
     staticFetchLength := staticFetchLength u;
     staticFetchOffset := staticFetchOffset u;
     staticPieceSize := staticPieceSize u;
     staticWriteOffset := staticWriteOffset u;
     staticDisableDiskFetch := staticDisableDiskFetch u;
     staticLatencyTarget := staticLatencyTarget u;
     staticNeedsMemory := staticNeedsMemory u;
     staticOverdrive := staticOverdrive u;
     staticPriority := staticPriority u;
     completedPieces := cp; failed := f; physicalChunkData := pcd;
     pieceUsage := pu; piecesCompleted := pc; piecesRegistered := pr;
     recoveryComplete := rc; workersRemaining := wr; workersStandby := ws;
     memoryAllocated := ma |}.

Definition set_destination (v : option downloadDestination) (u : unfinishedDownloadChunk) :=
  with_state u v (completedPieces u) (failed u) (physicalChunkData u) (pieceUsage u)
    (piecesCompleted u) (piecesRegistered u) (recoveryComplete u) (workersRemaining u) (workersStandby u) (memoryAllocated u).

Definition set_completedPieces (v : list bool) (u : unfinishedDownloadChunk) :=
  with_state u (destination u) v (failed u) (physicalChunkData u) (pieceUsage u)
    (piecesCompleted u) (piecesRegistered u) (recoveryComplete u) (workersRemaining u) (workersStandby u) (memoryAllocated u).

Definition set_failed (v : bool) (u : unfinishedDownloadChunk) :=
  with_state u (destination u) (completedPieces u) v (physicalChunkData u) (pieceUsage u)
    (piecesCompleted u) (piecesRegistered u) (recoveryComplete u) (workersRemaining u) (workersStandby u) (memoryAllocated u).

Definition set_physicalChunkData (v : pieces) (u : unfinishedDownloadChunk) :=
  with_state u (destination u) (completedPieces u) (failed u) v (pieceUsage u)
    (piecesCompleted u) (piecesRegistered u) (recoveryComplete u) (workersRemaining u) (workersStandby u) (memoryAllocated u).

Definition set_piecesCompleted (v : Z) (u : unfinishedDownloadChunk) :=
  with_state u (destination u) (completedPieces u) (failed u) (physicalChunkData u) (pieceUsage u)
    v (piecesRegistered u) (recoveryComplete u) (workersRemaining u) (workersStandby u) (memoryAllocated u).

Definition set_recoveryComplete (v : bool) (u : unfinishedDownloadChunk) :=
  with_state u (destination u) (completedPieces u) (failed u) (physicalChunkData u) (pieceUsage u)
    (piecesCompleted u) (piecesRegistered u) v (workersRemaining u) (workersStandby u) (memoryAllocated u).

Definition set_workersRemaining (v : Z) (u : unfinishedDownloadChunk) :=
  with_state u (destination u) (completedPieces u) (failed u) (physicalChunkData u) (pieceUsage u)
    (piecesCompleted u) (piecesRegistered u) (recoveryComplete u) v (workersStandby u) (memoryAllocated u).

Definition set_workersStandby (v : list worker) (u : unfinishedDownloadChunk) :=
  with_state u (destination u) (completedPieces u) (failed u) (physicalChunkData u) (pieceUsage u)
    (piecesCompleted u) (piecesRegistered u) (recoveryComplete u) (workersRemaining u) v (memoryAllocated u).

Definition set_memoryAllocated (v : Z) (u : unfinishedDownloadChunk) :=
  with_state u (destination u) (completedPieces u) (failed u) (physicalChunkData u) (pieceUsage u)
    (piecesCompleted u) (piecesRegistered u) (recoveryComplete u) (workersRemaining u) (workersStandby u) v.

(** The chunk and the download its [download] field points to. *)
Record store : Type := {
  chunk : unfinishedDownloadChunk;
  dl : download
}.

(** Calls that leave the chunk, in the order they are made.  What the
    callee does is not followed: the memory manager, the download's
    [managedFail] and [markComplete], the worker's job and [build.Critical]
    are not among the sources. *)
Inductive effect : Type :=
| MemoryReturn (n : Z)                 (* staticMemoryManager.Return(n) *)
| DownloadFail (e : error)             (* download.managedFail(e) *)
| DownloadMarkComplete                 (* download.markComplete() *)
| GoPerformDownloadChunkJob (w : worker)
                                       (* go w.threadedPerformDownloadChunkJob(udc) *)
| DestinationWrite (dataOffset writeOffset length : Z)
                                       (* destination.WritePieces(...) *)
| Critical (completed piecesCompleted : Z).
                                       (* build.Critical(...) *)

(** ** The monad of the methods *)

Inductive result (A : Type) : Type :=
| Done (a : A) (s : store) (log : list effect)
| Panic (s : store) (log : list effect).
Arguments Done {A} a s log.
Arguments Panic {A} s log.

Definition M (A : Type) : Type := store -> result A.

Definition ret {A} (a : A) : M A := fun s => Done a s [].

Definition bind {A B} (m : M A) (k : A -> M B) : M B :=
  fun s =>
    match m s with
    | Done a s1 l1 =>
        match k a s1 with
        | Done b s2 l2 => Done b s2 (l1 ++ l2)
        | Panic s2 l2 => Panic s2 (l1 ++ l2)
        end
    | Panic s1 l1 => Panic s1 l1
    end.

#[export] Instance M_ret : MRet M := @ret.
#[export] Instance M_bind : MBind M := fun A B k m => bind m k.

Definition panic {A} : M A := fun s => Panic s [].
Definition emit (e : effect) : M unit := fun s => Done tt s [e].
Definition read {A} (f : unfinishedDownloadChunk -> A) : M A :=
  fun s => Done (f (chunk s)) s [].
Definition modify (f : unfinishedDownloadChunk -> unfinishedDownloadChunk) : M unit :=
  fun s => Done tt {| chunk := f (chunk s); dl := dl s |} [].
Definition read_download {A} (f : download -> A) : M A :=
  fun s => Done (f (dl s)) s [].
Definition modify_download (f : download -> download) : M unit :=
  fun s => Done tt {| chunk := chunk s; dl := f (dl s) |} [].
Definition when (b : bool) (m : M unit) : M unit := if b then m else ret tt.

(** [defer d] before a body: [d] runs when the body returns and also when
    it panics; the panic goes on after it. *)
Definition defer {A} (d : M unit) (body : M A) : M A :=
  fun s =>
    match body s with
    | Done a s1 l1 =>
        match d s1 with
        | Done _ s2 l2 => Done a s2 (l1 ++ l2)
        | Panic s2 l2 => Panic s2 (l1 ++ l2)
        end
    | Panic s1 l1 =>
        match d s1 with
        | Done _ s2 l2 => Panic s2 (l1 ++ l2)
        | Panic s2 l2 => Panic s2 (l1 ++ l2)
        end
    end.

(** The store and the log a computation ends with, returned or not. *)
Definition final_store {A} (r : result A) : store :=
  match r with Done _ s _ => s | Panic s _ => s end.
Definition final_log {A} (r : result A) : list effect :=
  match r with Done _ _ l => l | Panic _ l => l end.

Definition lift_option {A} (o : option A) : M A :=
  match o with Some a => ret a | None => panic end.

(** [for _, x := range l { f x }] *)
Fixpoint for_each {A} (l : list A) (f : A -> M unit) : M unit :=
  match l with
  | [] => ret tt
  | x :: l' => f x;; for_each l' f
  end.

(** ** Partial-range recovery *)

(** Modelled from the spec: [segmentsForRecovery] is called by
    [bytesToRecover] and is not among the sources.  The spec gives its second
    result, [numSegments], as the ceiling of [(offset + length) /
    recoveredSegmentSize] minus the floor of [offset / recoveredSegmentSize];
    the first result is the segment the range starts in.
    [recoveredSegmentSize] is computed as [bytesToRecover] computes it; a
    zero [recoveredSegmentSize] is a division by zero. *)
Definition segmentsForRecovery (chunkFetchOffset chunkFetchLength : Z)
    (rs : ErasureCoder) : option (Z * Z) :=
  let '(segmentSize, _) := SupportsPartialEncoding rs in
  let recoveredSegmentSize := Uint64.mul (Uint64.of_int (MinPieces rs)) segmentSize in
  if recoveredSegmentSize =? 0 then None
  else
    let startSegment := chunkFetchOffset / recoveredSegmentSize in
    let endSegment :=
      (chunkFetchOffset + chunkFetchLength + recoveredSegmentSize - 1)
        / recoveredSegmentSize in
    Some (startSegment, Uint64.wrap (endSegment - startSegment)).

Definition bytesToRecover (chunkFetchOffset chunkFetchLength chunkSize : Z)
    (rs : ErasureCoder) : option Z :=
  let '(segmentSize, supportsPartial) := SupportsPartialEncoding rs in
  if negb supportsPartial then Some chunkSize
  else
    let recoveredSegmentSize := Uint64.mul (Uint64.of_int (MinPieces rs)) segmentSize in
    match segmentsForRecovery chunkFetchOffset chunkFetchLength rs with
    | None => None
    | Some (_, numSegments) => Some (Uint64.mul numSegments recoveredSegmentSize)
    end.

Definition recoveredDataOffset (chunkFetchOffset : Z) (rs : ErasureCoder) : option Z :=
  let '(segmentSize, supportsPartial) := SupportsPartialEncoding rs in
  if negb supportsPartial then Some chunkFetchOffset
  else
    let recoveredSegmentSize := Uint64.mul (Uint64.of_int (MinPieces rs)) segmentSize in
    Uint64.rem chunkFetchOffset recoveredSegmentSize.

(** ** The methods of the chunk *)

(** [for i := range data { data[i] = nil }] *)
Definition wipe (data : pieces) : pieces :=
  match data with
  | None => None
  | Some l => Some (fold_left (fun acc i => <[i:=None]> acc) (seq 0 (length l)) l)
  end.

Definition fail (err : error) : M unit :=
  modify (set_failed true);;
  modify (set_recoveryComplete true);;
  modify (fun u => set_physicalChunkData (wipe (physicalChunkData u)) u);;
  chunkIndex ← read staticChunkIndex;
  emit (DownloadFail (Errorf_chunkFailed chunkIndex err));;
  modify (set_destination None).

(** The local variable [maxMemory] of [returnMemory], after its three
    assignments. *)
Definition maxMemory (u : unfinishedDownloadChunk) : Z :=
  let maxMemory :=
    Uint64.mul (Uint64.of_int (GoInt.add (workersRemaining u) (piecesCompleted u)))
               (staticPieceSize u) in
  let maxMemory :=
    if MinPieces (erasureCode u) <=? piecesCompleted u
    then Uint64.mul (Uint64.of_int (GoInt.add (piecesCompleted u) (piecesRegistered u)))
                    (staticPieceSize u)
    else maxMemory in
  let maxMemory :=
    if recoveryComplete u
    then Uint64.mul (Uint64.of_int (piecesRegistered u)) (staticPieceSize u)
    else maxMemory in
  maxMemory.

Definition returnMemory : M unit :=
  u ← read id;
  let maxMemory := maxMemory u in
  when (maxMemory <? memoryAllocated u)
    (emit (MemoryReturn (Uint64.sub (memoryAllocated u) maxMemory));;
     modify (set_memoryAllocated maxMemory)).

Definition managedCleanUp : M unit :=
  (* Check if the chunk is newly failed. *)
  u ← read id;
  when ((GoInt.add (workersRemaining u) (piecesCompleted u) <? MinPieces (erasureCode u))
        && negb (failed u))
    (let str := notEnoughWorkersContext (workersRemaining u) (piecesCompleted u)
                  (MinPieces (erasureCode u)) in
     fail (AddContext errNotEnoughWorkers str));;
  (* Return any excess memory. *)
  returnMemory;;
  (* Nothing to do if the chunk has failed. *)
  u ← read id;
  if failed u then ret tt
  else
    (* Check whether standby workers are required. *)
    let chunkComplete := MinPieces (erasureCode u) <=? piecesCompleted u in
    let desiredPiecesRegistered :=
      GoInt.sub (GoInt.add (MinPieces (erasureCode u)) (staticOverdrive u))
                (piecesCompleted u) in
    let standbyWorkersRequired :=
      negb chunkComplete && (piecesRegistered u <? desiredPiecesRegistered) in
    if negb standbyWorkersRequired then ret tt
    else
      let standbyWorkers :=
        fold_left (fun acc w => acc ++ [w]) (workersStandby u) [] in
      modify (set_workersStandby []);;
      for_each standbyWorkers (fun w => emit (GoPerformDownloadChunkJob w)).

Definition managedFinalizeRecovery : M unit :=
  modify (set_physicalChunkData None);;
  modify (set_recoveryComplete true);;
  (* Update the download and signal completion of this chunk. *)
  modify_download (fun d => {| chunksRemaining := chunksRemaining d - 1 |});;
  remaining ← read_download chunksRemaining;
  when (remaining =? 0) (emit DownloadMarkComplete).

Definition managedRemoveWorker : M unit :=
  modify (fun u => set_workersRemaining (GoInt.decr (workersRemaining u)) u);;
  managedCleanUp.

(** [DEBUG] is [build.DEBUG]; an index past the end of [completedPieces]
    panics. *)
Definition markPieceCompleted (DEBUG : bool) (pieceIndex : Z) : M unit :=
  u ← read id;
  if Z.of_nat (length (completedPieces u)) <=? pieceIndex then panic
  else
    modify (fun u =>
      set_completedPieces (<[Z.to_nat pieceIndex := true]> (completedPieces u)) u);;
    modify (fun u => set_piecesCompleted (GoInt.incr (piecesCompleted u)) u);;
    (* Sanity check to make sure the slice and counter are consistent. *)
    if negb DEBUG then ret tt
    else
      u ← read id;
      let completed :=
        fold_left (fun c (b : bool) => if b then GoInt.incr c else c)
                  (completedPieces u) 0 in
      when (negb (completed =? piecesCompleted u))
        (emit (Critical completed (piecesCompleted u))).

(** A nil [destination] makes the call of [WritePieces] panic. *)
Definition threadedRecoverLogicalData : M (option error) :=
  defer managedCleanUp
    (u ← read id;
     (* Write the pieces to the requested output. *)
     dataOffset ← lift_option (recoveredDataOffset (staticFetchOffset u) (erasureCode u));
     d ← lift_option (destination u);
     emit (DestinationWrite dataOffset (staticWriteOffset u) (staticFetchLength u));;
     match WritePieces d (erasureCode u) (physicalChunkData u) dataOffset
             (staticWriteOffset u) (staticFetchLength u) with
     | Some err =>
         fail err;;
         ret (Some (AddContext err "unable to write to download destination"))
     | None =>
         (* finalize the chunk. *)
         managedFinalizeRecovery;;
         ret None
     end).

(** ** Event sequences *)

(** The operations of the chunk, as other goroutines invoke them. *)
Inductive event : Type :=
| EvFail (err : error)
| EvCleanUp
| EvFinalizeRecovery
| EvRemoveWorker
| EvMarkPieceCompleted (pieceIndex : Z)
| EvReturnMemory
| EvRecoverLogicalData.

Definition exec (DEBUG : bool) (e : event) : M unit :=
  match e with
  | EvFail err => fail err
  | EvCleanUp => managedCleanUp
  | EvFinalizeRecovery => managedFinalizeRecovery
  | EvRemoveWorker => managedRemoveWorker
  | EvMarkPieceCompleted p => markPieceCompleted DEBUG p
  | EvReturnMemory => returnMemory
  | EvRecoverLogicalData => threadedRecoverLogicalData;; ret tt
  end.

(** The store an event leaves, also when the operation panics. *)
Definition next (DEBUG : bool) (e : event) (s : store) : store :=
  final_store (exec DEBUG e s).

Definition run (DEBUG : bool) (es : list event) (s : store) : store :=
  fold_left (fun s e => next DEBUG e s) es s.

(** The stores after each event of a sequence. *)
Fixpoint trace (DEBUG : bool) (es : list event) (s : store) : list store :=
  match es with
  | [] => []
  | e :: es' => next DEBUG e s :: trace DEBUG es' (next DEBUG e s)
  end.

(** ** Predicates of the specification *)

(** The number of [true] entries. *)
Fixpoint popcount (l : list bool) : Z :=
  match l with
  | [] => 0
  | b :: l' => (if b then 1 else 0) + popcount l'
  end.

Definition counter_consistent (u : unfinishedDownloadChunk) : Prop :=
  piecesCompleted u = popcount (completedPieces u).

(** The states of the chunk's state machine that the properties name. *)
Definition is_Done (u : unfinishedDownloadChunk) : bool :=
  recoveryComplete u && negb (failed u).
Definition is_Failed (u : unfinishedDownloadChunk) : bool := failed u.

(** A piece is completed once: the event [EvMarkPieceCompleted p] is
    admissible where [completedPieces[p]] is false. *)
Definition admissible (e : event) (s : store) : Prop :=
  match e with
  | EvMarkPieceCompleted p =>
      0 <= p /\ completedPieces (chunk s) !! Z.to_nat p = Some false
  | _ => True
  end.

Fixpoint admissible_run (DEBUG : bool) (es : list event) (s : store) : Prop :=
  match es with
  | [] => True
  | e :: es' => admissible e s /\ admissible_run DEBUG es' (next DEBUG e s)
  end.

(** What a log holds of each kind of call. *)
Definition memoryReturned (log : list effect) : list Z :=
  omap (fun e => match e with MemoryReturn n => Some n | _ => None end) log.
Definition downloadFailures (log : list effect) : list error :=
  omap (fun e => match e with DownloadFail err => Some err | _ => None end) log.
Definition workersDispatched (log : list effect) : list worker :=
  omap (fun e => match e with GoPerformDownloadChunkJob w => Some w | _ => None end) log.
Definition markedComplete (log : list effect) : bool :=
  existsb (fun e => match e with DownloadMarkComplete => true | _ => false end) log.

(** The two tests of [managedCleanUp]: the condition under which it fails
    the chunk, and its local variable [standbyWorkersRequired]. *)
Definition newlyFailed (u : unfinishedDownloadChunk) : bool :=
  (GoInt.add (workersRemaining u) (piecesCompleted u) <? MinPieces (erasureCode u))
  && negb (failed u).

Definition standbyWorkersRequired (u : unfinishedDownloadChunk) : bool :=
  negb (MinPieces (erasureCode u) <=? piecesCompleted u)
  && (piecesRegistered u <?
      GoInt.sub (GoInt.add (MinPieces (erasureCode u)) (staticOverdrive u))
        (piecesCompleted u)).

(** The error [managedCleanUp] fails the chunk with, as the download sees it. *)
Definition notEnoughWorkersFailure (u : unfinishedDownloadChunk) : error :=
  Errorf_chunkFailed (staticChunkIndex u)
    (AddContext errNotEnoughWorkers
       (notEnoughWorkersContext (workersRemaining u) (piecesCompleted u)
          (MinPieces (erasureCode u)))).

(** Fields no method of the chunk writes. *)
Definition frame (u u' : unfinishedDownloadChunk) : Prop :=
  erasureCode u' = erasureCode u /\
  staticChunkIndex u' = staticChunkIndex u /\
  staticPieceSize u' = staticPieceSize u /\
  staticOverdrive u' = staticOverdrive u /\
  pieceUsage u' = pieceUsage u /\
  piecesRegistered u' = piecesRegistered u.

(** The used-memory formula as the spec words it: [(workersRemaining +
    piecesCompleted) * pieceSize] before recovery, [piecesRegistered *
    pieceSize] after recovery. *)
Definition spec_usedMemory (u : unfinishedDownloadChunk) : Z :=
  if recoveryComplete u
  then piecesRegistered u * staticPieceSize u
  else (workersRemaining u + piecesCompleted u) * staticPieceSize u.

(** The bytes handed back to the memory manager, in total. *)
Definition totalReturned (log : list effect) : Z :=
  foldr Z.add 0 (memoryReturned log).

(** The events that end by calling [managedCleanUp]. *)
Definition ends_with_cleanup (e : event) : bool :=
  match e with
  | EvCleanUp | EvRemoveWorker | EvRecoverLogicalData => true
  | _ => false
  end.


(** ** A chunk to compute with *)

(** The chunk of the spec's scenarios: 3 of 5 pieces suffice, pieces of 40
    bytes, segments of 8 bytes; the range [[10, 30)] of chunk 7 is wanted. *)
Definition exampleCoder : ErasureCoder :=
  {| MinPieces := 3; SupportsPartialEncoding := (8, true) |}.

Definition acceptingDestination : downloadDestination :=
  {| WritePieces := fun _ _ _ _ _ => None |}.

Definition brokenDestination : downloadDestination :=
  {| WritePieces := fun _ _ _ _ _ => Some (errOther "disk full") |}.

Definition exampleChunk (dest : downloadDestination) (workers : Z)
    (completed registered : list bool) (memory : Z) : unfinishedDownloadChunk :=
  {| destination := Some dest;
     erasureCode := exampleCoder;
     staticChunkIndex := 7;
     staticCacheID := "7";
     staticChunkSize := 120;
     staticFetchLength := 20;
     staticFetchOffset := 10;
     staticPieceSize := 40;
     staticWriteOffset := 0;
     staticDisableDiskFetch := false;
     staticLatencyTarget := 0;
     staticNeedsMemory := true;
     staticOverdrive := 1;
     staticPriority := 0;
     completedPieces := completed;
     failed := false;
     physicalChunkData := Some (replicate 5 None);
     pieceUsage := registered;
     piecesCompleted := popcount completed;
     piecesRegistered := popcount registered;
     recoveryComplete := false;
     workersRemaining := workers;
     workersStandby := [4%nat];
     memoryAllocated := memory |}.

Definition exampleStore (u : unfinishedDownloadChunk) : store :=
  {| chunk := u; dl := {| chunksRemaining := 1 |} |}.

(** A chunk that has its three pieces and a fourth still registered, before
    recovery: 5 workers, 320 bytes allocated. *)
Definition recoveringStore : store :=
  exampleStore (exampleChunk acceptingDestination 5
                  [true; true; true; false; false]
                  [false; false; false; true; false] 320).

(** A chunk with 3 workers left, one of them fetching piece 0, and 120
    bytes allocated. *)
Definition fetchingStore : store :=
  exampleStore (exampleChunk acceptingDestination 3
                  [false; false; false; false; false]
                  [true; false; false; false; false] 120).


(** A chunk whose destination refuses the write. *)
Definition brokenStore : store :=
  exampleStore (exampleChunk brokenDestination 5
                  [true; true; true; false; false]
                  [false; false; false; false; false] 320).

(** ** Sequences of events and their calls *)

(** The calls made over a sequence of events, in order. *)
Fixpoint effects (DEBUG : bool) (es : list event) (s : store) : list effect :=
  match es with
  | [] => []
  | e :: es' => final_log (exec DEBUG e s) ++ effects DEBUG es' (next DEBUG e s)
  end.

(** The calls of [WritePieces] in a log, by their offsets and length. *)
Definition destinationWrites (log : list effect) : list (Z * Z * Z) :=
  omap (fun e => match e with
                 | DestinationWrite dataOffset writeOffset len =>
                     Some (dataOffset, writeOffset, len)
                 | _ => None
                 end) log.

(** Any event but a call of [fail]. *)
Definition not_fail (e : event) : Prop :=
  match e with EvFail _ => False | _ => True end.

(** The fields that are set at creation, and the two that only the workers
    write. *)
Definition unwritten (u u' : unfinishedDownloadChunk) : Prop :=
  erasureCode u' = erasureCode u /\
  staticChunkIndex u' = staticChunkIndex u /\
  staticCacheID u' = staticCacheID u /\
  staticChunkSize u' = staticChunkSize u /\
  staticFetchLength u' = staticFetchLength u /\
  staticFetchOffset u' = staticFetchOffset u /\
  staticPieceSize u' = staticPieceSize u /\
  staticWriteOffset u' = staticWriteOffset u /\
  staticDisableDiskFetch u' = staticDisableDiskFetch u /\
  staticLatencyTarget u' = staticLatencyTarget u /\
  staticNeedsMemory u' = staticNeedsMemory u /\
  staticOverdrive u' = staticOverdrive u /\
  staticPriority u' = staticPriority u /\
  pieceUsage u' = pieceUsage u /\
  piecesRegistered u' = piecesRegistered u.

Ltac unfold_M :=
  unfold mbind, M_bind, bind, read, modify, modify_download, read_download,
    emit, when, ret, panic, lift_option in *.

(** * Properties *)

(** ** Arithmetic of the machine integers *)

Lemma GoInt_wrap_id z : GoInt.in_range z -> GoInt.wrap z = z.
Proof.
  unfold GoInt.in_range, GoInt.wrap, GoInt.min_int, GoInt.max_int.
  intros H. rewrite Z.mod_small; lia.
Qed.


Lemma Uint64_wrap_id z : Uint64.in_range z -> Uint64.wrap z = z.
Proof. unfold Uint64.in_range, Uint64.wrap. intros H. apply Z.mod_small; lia. Qed.

Lemma Uint64_wrap_range z : Uint64.in_range (Uint64.wrap z).
Proof.
  unfold Uint64.in_range, Uint64.wrap, Uint64.modulus.
  apply Z.mod_pos_bound. lia.
Qed.

Lemma Uint64_mul_wrap_l a b : Uint64.mul (Uint64.wrap a) b = Uint64.mul a b.
Proof.
  unfold Uint64.mul, Uint64.wrap, Uint64.modulus.
  rewrite Z.mul_mod_idemp_l; lia.
Qed.

(** ** Lists *)

Lemma popcount_bounds l : 0 <= popcount l <= Z.of_nat (length l).
Proof. induction l as [|[] l IH]; simpl popcount; simpl length; lia. Qed.

Lemma popcount_insert (l : list bool) (i : nat) :
  l !! i = Some false -> popcount (<[i:=true]> l) = popcount l + 1.
Proof.
  revert i. induction l as [|b l IH]; intros [|i] H; simpl in *; try discriminate.
  - injection H as ->. lia.
  - rewrite (IH i H). lia.
Qed.

(** The counting loop of the sanity check counts the [true] entries. *)
Lemma count_loop (l : list bool) (c : Z) :
  0 <= c -> c + Z.of_nat (length l) <= GoInt.max_int ->
  fold_left (fun c (b : bool) => if b then GoInt.incr c else c) l c = c + popcount l.
Proof.
  revert c. induction l as [|b l IH]; intros c Hc Hlen; simpl fold_left; simpl popcount.
  - lia.
  - simpl length in Hlen. destruct b.
    + unfold GoInt.incr, GoInt.add. rewrite GoInt_wrap_id.
      * rewrite IH; lia.
      * unfold GoInt.in_range, GoInt.min_int, GoInt.max_int in *. lia.
    + rewrite IH; lia.
Qed.

Lemma copy_loop {A} (l acc : list A) :
  fold_left (fun acc w => acc ++ [w]) l acc = acc ++ l.
Proof.
  revert acc. induction l as [|x l IH]; intros acc; simpl.
  - by rewrite app_nil_r.
  - rewrite IH. by rewrite <- app_assoc.
Qed.

Lemma wipe_loop (l : list bytes) (k : nat) :
  fold_left (fun acc i => <[i:=None]> acc) (seq k (length l - k)) l
  = take k l ++ replicate (length l - k) None.
Proof.
  remember (length l - k)%nat as n eqn:Hn.
  revert k l Hn. induction n as [|n IH]; intros k l Hn; simpl.
  - rewrite app_nil_r. rewrite take_ge; [done | lia].
  - rewrite IH by (rewrite length_insert; lia).
    assert (Hk : (k < length l)%nat) by lia.
    rewrite (take_S_r (<[k:=None]> l) k None)
      by (apply list_lookup_insert_eq; lia).
    rewrite take_insert_ge by lia.
    rewrite <- app_assoc. done.
Qed.

Lemma wipe_Some (l : list bytes) : wipe (Some l) = Some (replicate (length l) None).
Proof.
  unfold wipe. f_equal.
  pose proof (wipe_loop l 0) as H. rewrite Nat.sub_0_r in H. rewrite H.
  by rewrite take_0.
Qed.

(** ** The methods, run *)

Lemma fail_run err s :
  fail err s =
  Done tt
    {| chunk := set_destination None
                  (set_physicalChunkData (wipe (physicalChunkData (chunk s)))
                     (set_recoveryComplete true (set_failed true (chunk s))));
       dl := dl s |}
    [DownloadFail (Errorf_chunkFailed (staticChunkIndex (chunk s)) err)].
Proof. reflexivity. Qed.

Lemma returnMemory_run s :
  returnMemory s =
  if maxMemory (chunk s) <? memoryAllocated (chunk s)
  then Done tt {| chunk := set_memoryAllocated (maxMemory (chunk s)) (chunk s); dl := dl s |}
         [MemoryReturn (Uint64.sub (memoryAllocated (chunk s)) (maxMemory (chunk s)))]
  else Done tt s [].
Proof.
  unfold returnMemory. unfold_M. simpl.
  destruct (maxMemory (chunk s) <? memoryAllocated (chunk s)); reflexivity.
Qed.

Lemma for_each_dispatch (ws : list worker) s :
  for_each ws (fun w => emit (GoPerformDownloadChunkJob w)) s
  = Done tt s (map GoPerformDownloadChunkJob ws).
Proof.
  induction ws as [|w ws IH]; simpl; [reflexivity|].
  unfold_M. rewrite IH. reflexivity.
Qed.


Lemma maxMemory_after_fail u pcd :
  maxMemory (set_destination None (set_physicalChunkData pcd
               (set_recoveryComplete true (set_failed true u))))
  = maxMemory (set_recoveryComplete true u).
Proof. reflexivity. Qed.

Lemma log_of_dispatch (ws : list worker) :
  downloadFailures (map GoPerformDownloadChunkJob ws) = [] /\
  memoryReturned (map GoPerformDownloadChunkJob ws) = [] /\
  workersDispatched (map GoPerformDownloadChunkJob ws) = ws /\
  markedComplete (map GoPerformDownloadChunkJob ws) = false.
Proof.
  unfold downloadFailures, memoryReturned, workersDispatched, markedComplete.
  induction ws as [|w ws (IH1 & IH2 & IH3 & IH4)]; simpl; [done|].
  repeat split; try assumption. f_equal. exact IH3.
Qed.

Lemma managedCleanUp_effect s :
  let u := chunk s in
  let limit := maxMemory (if newlyFailed u then set_recoveryComplete true u else u) in
  let dispatch := negb (failed u || newlyFailed u) && standbyWorkersRequired u in
  exists s' log,
    managedCleanUp s = Done tt s' log /\
    dl s' = dl s /\
    frame u (chunk s') /\
    completedPieces (chunk s') = completedPieces u /\
    piecesCompleted (chunk s') = piecesCompleted u /\
    workersRemaining (chunk s') = workersRemaining u /\
    failed (chunk s') = failed u || newlyFailed u /\
    recoveryComplete (chunk s') = recoveryComplete u || newlyFailed u /\
    physicalChunkData (chunk s') =
      (if newlyFailed u then wipe (physicalChunkData u) else physicalChunkData u) /\
    destination (chunk s') = (if newlyFailed u then None else destination u) /\
    memoryAllocated (chunk s') =
      (if limit <? memoryAllocated u then limit else memoryAllocated u) /\
    workersStandby (chunk s') = (if dispatch then [] else workersStandby u) /\
    downloadFailures log = (if newlyFailed u then [notEnoughWorkersFailure u] else []) /\
    memoryReturned log =
      (if limit <? memoryAllocated u
       then [Uint64.sub (memoryAllocated u) limit] else []) /\
    workersDispatched log = (if dispatch then workersStandby u else []) /\
    markedComplete log = false.
Proof.
  intros u limit dispatch.
  subst dispatch limit u.
  unfold newlyFailed, standbyWorkersRequired, notEnoughWorkersFailure, frame.
  unfold managedCleanUp. unfold_M. simpl.
  destruct (GoInt.add (workersRemaining (chunk s)) (piecesCompleted (chunk s))
            <? MinPieces (erasureCode (chunk s)));
    destruct (failed (chunk s)) eqn:Hf; simpl; rewrite ?fail_run; simpl;
    rewrite returnMemory_run; simpl;
    rewrite ?(maxMemory_after_fail (chunk s));
    match goal with
    | |- context [maxMemory ?v <? memoryAllocated (chunk s)] =>
        destruct (maxMemory v <? memoryAllocated (chunk s))
    end; simpl; rewrite ?Hf; simpl;
    repeat (match goal with
            | |- context [?a <=? ?b] => destruct (a <=? b)
            | |- context [?a <? ?b] => destruct (a <? b)
            end; simpl);
    rewrite ?copy_loop; simpl;
    change (fun (w : worker) (s1 : store) => Done tt s1 [GoPerformDownloadChunkJob w])
      with (fun w => emit (GoPerformDownloadChunkJob w));
    rewrite ?for_each_dispatch;
    eexists _, _; (split; [reflexivity|]); simpl;
    rewrite ?Hf, ?orb_false_r, ?orb_true_r;
    destruct (log_of_dispatch (workersStandby (chunk s))) as (L1 & L2 & L3 & L4);
    unfold downloadFailures, memoryReturned, workersDispatched, markedComplete in *;
    simpl; rewrite ?L1, ?L2, ?L3, ?L4; repeat split; reflexivity.
Qed.

Lemma managedFinalizeRecovery_run s :
  managedFinalizeRecovery s =
  Done tt
    {| chunk := set_recoveryComplete true (set_physicalChunkData None (chunk s));
       dl := {| chunksRemaining := chunksRemaining (dl s) - 1 |} |}
    (if chunksRemaining (dl s) - 1 =? 0 then [DownloadMarkComplete] else []).
Proof.
  unfold managedFinalizeRecovery. unfold_M. simpl.
  destruct (chunksRemaining (dl s) - 1 =? 0); reflexivity.
Qed.

Lemma managedRemoveWorker_run s :
  managedRemoveWorker s =
  managedCleanUp
    {| chunk := set_workersRemaining (GoInt.decr (workersRemaining (chunk s))) (chunk s);
       dl := dl s |}.
Proof.
  unfold managedRemoveWorker. unfold_M. simpl.
  destruct (managedCleanUp _); reflexivity.
Qed.

Lemma markPieceCompleted_panics DEBUG p s :
  Z.of_nat (length (completedPieces (chunk s))) <= p ->
  markPieceCompleted DEBUG p s = Panic s [].
Proof.
  intros H. unfold markPieceCompleted. unfold_M. simpl.
  destruct (Z.leb_spec (Z.of_nat (length (completedPieces (chunk s)))) p); [reflexivity | lia].
Qed.

Lemma markPieceCompleted_run DEBUG p s :
  p < Z.of_nat (length (completedPieces (chunk s))) ->
  let u' := set_piecesCompleted (GoInt.incr (piecesCompleted (chunk s)))
              (set_completedPieces (<[Z.to_nat p := true]> (completedPieces (chunk s)))
                 (chunk s)) in
  let completed :=
    fold_left (fun c (b : bool) => if b then GoInt.incr c else c) (completedPieces u') 0 in
  markPieceCompleted DEBUG p s =
  Done tt {| chunk := u'; dl := dl s |}
    (if DEBUG && negb (completed =? piecesCompleted u')
     then [Critical completed (piecesCompleted u')] else []).
Proof.
  intros H. unfold markPieceCompleted. unfold_M. simpl.
  destruct (Z.leb_spec (Z.of_nat (length (completedPieces (chunk s)))) p); [lia|].
  destruct DEBUG; simpl; [|reflexivity].
  match goal with |- context [negb ?c] => destruct c end; reflexivity.
Qed.

Lemma threadedRecoverLogicalData_run s :
  let u := chunk s in
  threadedRecoverLogicalData s =
  match recoveredDataOffset (staticFetchOffset u) (erasureCode u), destination u with
  | Some dataOffset, Some d =>
      let w := DestinationWrite dataOffset (staticWriteOffset u) (staticFetchLength u) in
      match WritePieces d (erasureCode u) (physicalChunkData u) dataOffset
              (staticWriteOffset u) (staticFetchLength u) with
      | Some err =>
          let r := fail err s in
          let c := managedCleanUp (final_store r) in
          Done (Some (AddContext err "unable to write to download destination"))
            (final_store c) (w :: final_log r ++ final_log c)
      | None =>
          let r := managedFinalizeRecovery s in
          let c := managedCleanUp (final_store r) in
          Done None (final_store c) (w :: final_log r ++ final_log c)
      end
  | _, _ =>
      let c := managedCleanUp s in
      Panic (final_store c) (final_log c)
  end.
Proof.
  intros u. subst u.
  unfold threadedRecoverLogicalData, defer. unfold_M. simpl.
  destruct (recoveredDataOffset _ _) as [dataOffset|]; simpl;
    [destruct (destination (chunk s)) as [d|]; simpl;
     [destruct (WritePieces d _ _ _ _ _) as [err|]; simpl|]|];
    rewrite ?managedFinalizeRecovery_run; simpl;
    try destruct (chunksRemaining (dl s) - 1 =? 0); simpl;
    match goal with
    | |- context [managedCleanUp ?x] =>
        destruct (managedCleanUp_effect x) as (s' & log & -> & _)
    end; reflexivity.
Qed.

Ltac cleanup_at x :=
  let s' := fresh "s'" in
  let log := fresh "log" in
  destruct (managedCleanUp_effect x)
    as (s' & log & ?Hrun & ?Hdl & ?Hframe & ?Hcp & ?Hpc & ?Hwr & ?Hfailed & ?Hrc
        & ?Hpcd & ?Hdest & ?Hmem & ?Hstandby & ?Hfailures & ?Hreturned
        & ?Hdispatched & ?Hcomplete);
  simpl in *.

Lemma exec_recover_final DEBUG s :
  final_store (exec DEBUG EvRecoverLogicalData s) = final_store (threadedRecoverLogicalData s)
  /\ final_log (exec DEBUG EvRecoverLogicalData s) = final_log (threadedRecoverLogicalData s).
Proof.
  simpl. unfold_M. destruct (threadedRecoverLogicalData s); simpl; [|done].
  by rewrite app_nil_r.
Qed.

(** What each event does to the flags, the counters and the slices. *)
Lemma next_effect DEBUG e s :
  let u := chunk s in
  let u' := chunk (next DEBUG e s) in
  frame u u' /\
  (failed u = true -> failed u' = true) /\
  (recoveryComplete u = true -> recoveryComplete u' = true) /\
  (failed u' = true -> failed u = false -> recoveryComplete u' = true) /\
  workersRemaining u' =
    (match e with EvRemoveWorker => GoInt.decr (workersRemaining u) | _ => workersRemaining u end) /\
  length (completedPieces u') = length (completedPieces u) /\
  (match e with
   | EvMarkPieceCompleted p =>
       if Z.of_nat (length (completedPieces u)) <=? p
       then completedPieces u' = completedPieces u /\ piecesCompleted u' = piecesCompleted u
       else completedPieces u' = <[Z.to_nat p := true]> (completedPieces u)
            /\ piecesCompleted u' = GoInt.incr (piecesCompleted u)
   | _ => completedPieces u' = completedPieces u /\ piecesCompleted u' = piecesCompleted u
   end).
Proof.
  intros u u'. subst u u'. unfold next.
  destruct e as [err| | | |p| |].
  - simpl. unfold frame. repeat split; auto.
  - simpl. cleanup_at s. rewrite Hrun. simpl.
    rewrite Hfailed, Hrc, Hwr, Hcp, Hpc.
    repeat split; try apply Hframe; auto.
    + intros ->. done.
    + intros ->. done.
    + intros H1 H2. rewrite H2 in H1. simpl in H1. rewrite H1. apply orb_true_r.
  - simpl. rewrite managedFinalizeRecovery_run. simpl. unfold frame. repeat split; auto.
  - simpl. rewrite managedRemoveWorker_run.
    match goal with |- context [managedCleanUp ?x] => cleanup_at x end.
    rewrite Hrun. simpl.
    rewrite Hfailed, Hrc, Hwr, Hcp, Hpc.
    repeat split; try apply Hframe; auto.
    + intros ->. done.
    + intros ->. done.
    + intros H1 H2. rewrite H2 in H1. simpl in H1. rewrite H1. apply orb_true_r.
  - simpl. destruct (Z.leb_spec (Z.of_nat (length (completedPieces (chunk s)))) p).
    + rewrite markPieceCompleted_panics by lia. simpl. unfold frame. repeat split; auto.
      congruence.
    + rewrite markPieceCompleted_run by lia. simpl. unfold frame.
      repeat split; auto; try congruence. by rewrite length_insert.
  - simpl. rewrite returnMemory_run.
    destruct (_ <? _); simpl; unfold frame; repeat split; auto; congruence.
  - destruct (exec_recover_final DEBUG s) as [-> _].
    rewrite threadedRecoverLogicalData_run. simpl.
    destruct (recoveredDataOffset _ _) as [dataOffset|]; simpl;
      [destruct (destination (chunk s)) as [d|]; simpl;
       [destruct (WritePieces d _ _ _ _ _) as [err|]; simpl|]|];
      rewrite ?managedFinalizeRecovery_run; simpl;
      match goal with |- context [managedCleanUp ?x] => cleanup_at x end;
      rewrite Hrun; simpl;
      rewrite Hfailed, Hrc, Hwr, Hcp, Hpc;
      (repeat split; try apply Hframe; auto);
      try (intros ->; done);
      try (intros H1 H2; rewrite H2 in H1; simpl in H1; rewrite H1; apply orb_true_r).
Qed.

Lemma next_invariant DEBUG e s :
  (failed (chunk s) = true -> recoveryComplete (chunk s) = true) ->
  failed (chunk (next DEBUG e s)) = true ->
  recoveryComplete (chunk (next DEBUG e s)) = true.
Proof.
  intros Hinv Hf'.
  destruct (next_effect DEBUG e s) as (_ & _ & Hrc & Hnew & _).
  destruct (failed (chunk s)) eqn:Hf; auto.
Qed.

Lemma run_sticky DEBUG es s :
  (failed (chunk s) = true -> failed (chunk (run DEBUG es s)) = true) /\
  (recoveryComplete (chunk s) = true -> recoveryComplete (chunk (run DEBUG es s)) = true).
Proof.
  revert s. induction es as [|e es IH]; intros s; simpl; [auto|].
  destruct (next_effect DEBUG e s) as (_ & Hf & Hrc & _).
  destruct (IH (next DEBUG e s)) as [IHf IHrc]. auto.
Qed.

(** ** managedCleanUp *)

(** C1.  [managedCleanUp] always returns.  It fails the chunk, reporting
    [errNotEnoughWorkers] (with its context) to the download, exactly when
    at entry [workersRemaining + piecesCompleted < MinPieces] and the chunk
    is not failed yet; then [failed] is set, and otherwise [failed] is as
    it was.  The sum is Go's [int] sum. *)
Theorem managedCleanUp_fails_chunk (s : store) :
  let u := chunk s in
  let r := managedCleanUp s in
  let notEnough :=
    (GoInt.add (workersRemaining u) (piecesCompleted u) <? MinPieces (erasureCode u))
    && negb (failed u) in
  (exists s' log, r = Done tt s' log) /\
  downloadFailures (final_log r) =
    (if notEnough
     then [Errorf_chunkFailed (staticChunkIndex u)
             (AddContext errNotEnoughWorkers
                (notEnoughWorkersContext (workersRemaining u) (piecesCompleted u)
                   (MinPieces (erasureCode u))))]
     else []) /\
  failed (chunk (final_store r)) = (if notEnough then true else failed u).
Proof.
  intros u r notEnough. subst r. cleanup_at s. rewrite Hrun. simpl.
  split; [eauto|]. split.
  - exact Hfailures.
  - rewrite Hfailed. subst notEnough u. unfold newlyFailed.
    destruct (GoInt.add (workersRemaining (chunk s)) (piecesCompleted (chunk s))
              <? MinPieces (erasureCode (chunk s))),
      (failed (chunk s)); reflexivity.
Qed.

(** C8.  [managedCleanUp] hands the standby workers to fresh goroutines
    exactly when the chunk is not failed (the flag as this call leaves it,
    so a chunk that the call itself fails dispatches nothing),
    [piecesCompleted < MinPieces] and
    [piecesRegistered < MinPieces + overdrive - piecesCompleted]: then one
    [threadedPerformDownloadChunkJob] is started per standby worker, in the
    order of the list, and the list is left empty; otherwise no goroutine is
    started and the list is untouched. *)
Theorem managedCleanUp_dispatches_standby (s : store) :
  let u := chunk s in
  let r := managedCleanUp s in
  let u' := chunk (final_store r) in
  let dispatch :=
    negb (failed u')
    && (piecesCompleted u <? MinPieces (erasureCode u))
    && (piecesRegistered u <?
        GoInt.sub (GoInt.add (MinPieces (erasureCode u)) (staticOverdrive u))
          (piecesCompleted u)) in
  failed u' = failed u
              || (GoInt.add (workersRemaining u) (piecesCompleted u)
                  <? MinPieces (erasureCode u)) /\
  workersDispatched (final_log r) = (if dispatch then workersStandby u else []) /\
  workersStandby u' = (if dispatch then [] else workersStandby u).
Proof.
  intros u r u' dispatch. subst dispatch u' r. cleanup_at s. rewrite Hrun. simpl.
  rewrite Hdispatched, Hstandby, Hfailed. subst u.
  unfold standbyWorkersRequired, newlyFailed.
  rewrite (Z.ltb_antisym (MinPieces (erasureCode (chunk s))) (piecesCompleted (chunk s))).
  destruct (failed (chunk s)),
    (GoInt.add (workersRemaining (chunk s)) (piecesCompleted (chunk s))
     <? MinPieces (erasureCode (chunk s))),
    (MinPieces (erasureCode (chunk s)) <=? piecesCompleted (chunk s)),
    (piecesRegistered (chunk s) <? _); repeat split; reflexivity.
Qed.

(** ** fail *)

(** C10.  After [fail err] the flags [failed] and [recoveryComplete] are
    set, every entry of [physicalChunkData] is nil and [destination] is nil.
    Whatever operations follow, both flags stay set, so the chunk is never
    in the state Done, read as [recoveryComplete] and not [failed].  More
    generally every operation preserves that [failed] implies
    [recoveryComplete]. *)
Theorem fail_is_final (DEBUG : bool) (err : error) (s : store) :
  let u := chunk s in
  let r := fail err s in
  let u' := chunk (final_store r) in
  (exists log, r = Done tt (final_store r) log) /\
  failed u' = true /\
  recoveryComplete u' = true /\
  physicalChunkData u' = (fun l => replicate (length l) None) <$> physicalChunkData u /\
  destination u' = None /\
  (forall es,
     let u'' := chunk (run DEBUG es (final_store r)) in
     failed u'' = true /\ recoveryComplete u'' = true /\ is_Done u'' = false) /\
  (forall e s0,
     (failed (chunk s0) = true -> recoveryComplete (chunk s0) = true) ->
     failed (chunk (next DEBUG e s0)) = true ->
     recoveryComplete (chunk (next DEBUG e s0)) = true).
Proof.
  intros u r u'. subst u r u'. rewrite fail_run. simpl.
  split; [eauto|]. repeat split; auto.
  - destruct (physicalChunkData (chunk s)) as [l|]; [|reflexivity].
    rewrite wipe_Some. reflexivity.
  - apply run_sticky. reflexivity.
  - apply run_sticky. reflexivity.
  - unfold is_Done.
    match goal with
    | |- context [run DEBUG es ?x] => destruct (run_sticky DEBUG es x) as [-> _]
    end; [|reflexivity].
    apply andb_false_r.
  - intros e s0. apply next_invariant.
Qed.

(** ** threadedRecoverLogicalData *)

Lemma memoryReturned_app l1 l2 :
  memoryReturned (l1 ++ l2) = memoryReturned l1 ++ memoryReturned l2.
Proof. unfold memoryReturned. apply omap_app. Qed.

Lemma downloadFailures_app l1 l2 :
  downloadFailures (l1 ++ l2) = downloadFailures l1 ++ downloadFailures l2.
Proof. unfold downloadFailures. apply omap_app. Qed.

Lemma markedComplete_app l1 l2 :
  markedComplete (l1 ++ l2) = markedComplete l1 || markedComplete l2.
Proof. unfold markedComplete. apply existsb_app. Qed.

(** C5.  When the destination accepts the pieces ([WritePieces] returns no
    error), [threadedRecoverLogicalData] returns nil and leaves
    [physicalChunkData] nil and [recoveryComplete] set; the download's
    [chunksRemaining] is one less, [markComplete] is called exactly when it
    reached zero, and the memory above [piecesRegistered * pieceSize] is
    returned to the memory manager. *)
Theorem recovery_finished (s : store) (d : downloadDestination) (dataOffset : Z) :
  let u := chunk s in
  destination u = Some d ->
  recoveredDataOffset (staticFetchOffset u) (erasureCode u) = Some dataOffset ->
  WritePieces d (erasureCode u) (physicalChunkData u) dataOffset
    (staticWriteOffset u) (staticFetchLength u) = None ->
  let r := threadedRecoverLogicalData s in
  let u' := chunk (final_store r) in
  let limit := Uint64.mul (Uint64.of_int (piecesRegistered u)) (staticPieceSize u) in
  (exists log, r = Done None (final_store r) log) /\
  physicalChunkData u' = None /\
  recoveryComplete u' = true /\
  chunksRemaining (dl (final_store r)) = chunksRemaining (dl s) - 1 /\
  markedComplete (final_log r) = (chunksRemaining (dl (final_store r)) =? 0) /\
  memoryReturned (final_log r) =
    (if limit <? memoryAllocated u then [Uint64.sub (memoryAllocated u) limit] else []) /\
  memoryAllocated u' = (if limit <? memoryAllocated u then limit else memoryAllocated u).
Proof.
  intros u Hd Hoff Hw r u' limit. subst r u' limit u.
  rewrite threadedRecoverLogicalData_run. simpl. rewrite Hoff, Hd, Hw.
  rewrite managedFinalizeRecovery_run. simpl.
  match goal with |- context [managedCleanUp ?x] => cleanup_at x end.
  rewrite Hrun. simpl.
  assert (Hlimit : forall b : bool,
    maxMemory (if b then set_recoveryComplete true
                           (set_recoveryComplete true (set_physicalChunkData None (chunk s)))
               else set_recoveryComplete true (set_physicalChunkData None (chunk s)))
    = Uint64.mul (Uint64.of_int (piecesRegistered (chunk s))) (staticPieceSize (chunk s)))
    by (intros []; reflexivity).
  rewrite Hlimit in Hmem, Hreturned.
  split; [eauto|]. repeat split.
  - rewrite Hpcd. destruct (newlyFailed _); reflexivity.
  - rewrite Hrc. reflexivity.
  - rewrite Hdl. reflexivity.
  - rewrite Hdl. simpl. rewrite markedComplete_app, Hcomplete, orb_false_r.
    destruct (chunksRemaining (dl s) - 1 =? 0); reflexivity.
  - rewrite memoryReturned_app, Hreturned.
    destruct (chunksRemaining (dl s) - 1 =? 0); reflexivity.
  - exact Hmem.
Qed.

(** C6.  When [WritePieces] returns an error, [threadedRecoverLogicalData]
    returns that error with context, the chunk is failed and the download
    is told of this one failure, carrying that error.
    [managedFinalizeRecovery] does not run: [chunksRemaining] is unchanged,
    [markComplete] is not called and [physicalChunkData] has its entries
    wiped by [fail].  Whatever operations follow, the chunk stays failed and
    so is never Done. *)
Theorem write_error_fails_chunk (DEBUG : bool) (s : store) (d : downloadDestination)
    (dataOffset : Z) (err : error) :
  let u := chunk s in
  destination u = Some d ->
  recoveredDataOffset (staticFetchOffset u) (erasureCode u) = Some dataOffset ->
  WritePieces d (erasureCode u) (physicalChunkData u) dataOffset
    (staticWriteOffset u) (staticFetchLength u) = Some err ->
  let r := threadedRecoverLogicalData s in
  let u' := chunk (final_store r) in
  (exists log,
     r = Done (Some (AddContext err "unable to write to download destination"))
           (final_store r) log) /\
  failed u' = true /\
  downloadFailures (final_log r) = [Errorf_chunkFailed (staticChunkIndex u) err] /\
  chunksRemaining (dl (final_store r)) = chunksRemaining (dl s) /\
  markedComplete (final_log r) = false /\
  physicalChunkData u' = wipe (physicalChunkData u) /\
  (forall es,
     let u'' := chunk (run DEBUG es (final_store r)) in
     failed u'' = true /\ is_Done u'' = false).
Proof.
  intros u Hd Hoff Hw r u'. subst r u' u.
  rewrite threadedRecoverLogicalData_run. simpl. rewrite Hoff, Hd, Hw.
  rewrite ?fail_run. simpl.
  match goal with |- context [managedCleanUp ?x] => cleanup_at x end.
  rewrite Hrun. simpl.
  assert (Hnf : newlyFailed
    (set_destination None
       (set_physicalChunkData (wipe (physicalChunkData (chunk s)))
          (set_recoveryComplete true (set_failed true (chunk s))))) = false)
    by (unfold newlyFailed; simpl; apply andb_false_r).
  rewrite Hnf in *.
  assert (Hf' : failed (chunk s') = true) by (rewrite Hfailed; reflexivity).
  split; [eauto|]. repeat split.
  - exact Hf'.
  - rewrite Hfailures. reflexivity.
  - rewrite Hdl. reflexivity.
  - exact Hcomplete.
  - exact Hpcd.
  - apply run_sticky. exact Hf'.
  - unfold is_Done. destruct (run_sticky DEBUG es s') as [Hs _].
    rewrite (Hs Hf'). apply andb_false_r.
Qed.

(** ** markPieceCompleted *)

Lemma incr_popcount (l : list bool) (i : nat) :
  Z.of_nat (length l) <= GoInt.max_int ->
  l !! i = Some false ->
  GoInt.incr (popcount l) = popcount (<[i:=true]> l).
Proof.
  intros Hlen Hi. rewrite (popcount_insert l i Hi).
  pose proof (popcount_bounds l) as Hl.
  pose proof (popcount_bounds (<[i:=true]> l)) as Hl'.
  rewrite length_insert, (popcount_insert l i Hi) in Hl'.
  unfold GoInt.incr, GoInt.add. apply GoInt_wrap_id.
  unfold GoInt.in_range, GoInt.min_int, GoInt.max_int in *. lia.
Qed.

Lemma markPieceCompleted_consistent DEBUG p s :
  0 <= p ->
  Z.of_nat (length (completedPieces (chunk s))) <= GoInt.max_int ->
  completedPieces (chunk s) !! Z.to_nat p = Some false ->
  counter_consistent (chunk s) ->
  markPieceCompleted DEBUG p s = Done tt (next DEBUG (EvMarkPieceCompleted p) s) [] /\
  counter_consistent (chunk (next DEBUG (EvMarkPieceCompleted p) s)).
Proof.
  intros Hp Hlen Hi Hc. unfold counter_consistent in *.
  assert (Hlt : p < Z.of_nat (length (completedPieces (chunk s)))).
  { apply lookup_lt_Some in Hi. lia. }
  unfold next. simpl. rewrite (markPieceCompleted_run DEBUG p s Hlt). simpl.
  rewrite Hc, (incr_popcount _ _ Hlen Hi).
  rewrite count_loop by (rewrite ?length_insert; lia).
  rewrite Z.add_0_l, Z.eqb_refl, andb_false_r. split; reflexivity.
Qed.

Lemma next_counter_consistent DEBUG e s :
  admissible e s ->
  Z.of_nat (length (completedPieces (chunk s))) <= GoInt.max_int ->
  counter_consistent (chunk s) ->
  counter_consistent (chunk (next DEBUG e s)).
Proof.
  intros Ha Hlen Hc.
  pose proof (next_effect DEBUG e s) as (_ & _ & _ & _ & _ & _ & H).
  destruct e as [err| | | |p| |];
    try (cbv beta iota zeta in H; destruct H as [Hcp Hpc];
         unfold counter_consistent in *; rewrite Hcp, Hpc; exact Hc).
  destruct Ha as [Hp Hi].
  apply (markPieceCompleted_consistent DEBUG p s Hp Hlen Hi Hc).
Qed.

(** Without that condition the equality is lost, and debug builds report it:
    the second completion of piece 1 counts 1 completed piece against a
    counter of 2. *)
Example markPieceCompleted_twice :
  final_log (markPieceCompleted true 1 (next true (EvMarkPieceCompleted 1) fetchingStore))
  = [Critical 1 2].
Proof. reflexivity. Qed.

(** C4.  Where [piecesCompleted] is the number of [true] entries of
    [completedPieces], marking a piece [p] whose entry is false keeps it so
    (and the sanity check of debug builds is silent); hence the equality
    holds after each event of every sequence of operations in which a piece
    is completed once. *)
Theorem piecesCompleted_counts_completedPieces (DEBUG : bool) (s : store) :
  Z.of_nat (length (completedPieces (chunk s))) <= GoInt.max_int ->
  counter_consistent (chunk s) ->
  (forall p,
     0 <= p ->
     completedPieces (chunk s) !! Z.to_nat p = Some false ->
     exists s',
       markPieceCompleted DEBUG p s = Done tt s' [] /\
       piecesCompleted (chunk s') = popcount (completedPieces (chunk s'))) /\
  (forall es,
     admissible_run DEBUG es s ->
     Forall (fun s' => piecesCompleted (chunk s') = popcount (completedPieces (chunk s')))
            (trace DEBUG es s)).
Proof.
  intros Hlen Hc. split.
  - intros p Hp Hi.
    destruct (markPieceCompleted_consistent DEBUG p s Hp Hlen Hi Hc) as [Hrun Hc'].
    eauto.
  - intros es. revert s Hlen Hc.
    induction es as [|e es IH]; intros s Hlen Hc Hadm; simpl; [constructor|].
    destruct Hadm as [Ha Hadm].
    pose proof (next_counter_consistent DEBUG e s Ha Hlen Hc) as Hc'.
    constructor; [exact Hc'|].
    apply IH; [|exact Hc'|exact Hadm].
    destruct (next_effect DEBUG e s) as (_ & _ & _ & _ & _ & Hl & _).
    rewrite Hl. exact Hlen.
Qed.

(** ** Partial-range recovery *)

Lemma floor_segment (a d : Z) : 0 < d -> (a / d) * d <= a < (a / d + 1) * d.
Proof.
  intros Hd. pose proof (Z.mul_div_le a d Hd). pose proof (Z.mul_succ_div_gt a d Hd).
  lia.
Qed.

Lemma ceil_segment (a d : Z) :
  0 < d -> ((a + d - 1) / d - 1) * d < a <= ((a + d - 1) / d) * d.
Proof.
  intros Hd. pose proof (floor_segment (a + d - 1) d Hd). lia.
Qed.

Lemma recoveredSegmentSize_pos (minPieces segmentSize : Z) :
  Uint64.mul (Uint64.of_int minPieces) segmentSize <> 0 ->
  0 < Uint64.mul (Uint64.of_int minPieces) segmentSize < Uint64.modulus.
Proof.
  intros Hne. pose proof (Uint64_wrap_range (Uint64.of_int minPieces * segmentSize)) as H.
  unfold Uint64.in_range in H. unfold Uint64.mul in *. lia.
Qed.

Lemma recoveredSegmentSize_exact (minPieces segmentSize : Z) :
  0 <= minPieces -> 0 <= segmentSize -> minPieces * segmentSize < Uint64.modulus ->
  Uint64.mul (Uint64.of_int minPieces) segmentSize = minPieces * segmentSize.
Proof.
  intros Hm Hs Hlt. unfold Uint64.of_int. rewrite Uint64_mul_wrap_l.
  unfold Uint64.mul. apply Uint64_wrap_id. unfold Uint64.in_range. nia.
Qed.

(** C2.  Where partial encoding is not supported, [bytesToRecover] is the
    chunk size and [recoveredDataOffset] the fetch offset.  Where it is
    supported with a non-zero [recoveredSegmentSize = MinPieces *
    segmentSize] (a zero one is a division by zero: both panic), the range [[offset, offset + length)] starts in segment
    [startSegment] (the floor of [offset / recoveredSegmentSize]) and ends
    with segment [endSegment] (the ceiling of [(offset + length) /
    recoveredSegmentSize]); [bytesToRecover] is [(endSegment - startSegment) *
    recoveredSegmentSize] and [recoveredDataOffset] is [offset mod
    recoveredSegmentSize], in [uint64] arithmetic and, where the sizes fit
    64 bits, in the integers.  For segments of 8 bytes, 3 pieces and the
    range [[10, 30)] of a chunk of 120 bytes these are 48 and 10. *)
Theorem bytesToRecover_recoveredDataOffset_spec
    (chunkFetchOffset chunkFetchLength chunkSize segmentSize minPieces : Z) :
  let whole := {| MinPieces := minPieces; SupportsPartialEncoding := (segmentSize, false) |} in
  let partial := {| MinPieces := minPieces; SupportsPartialEncoding := (segmentSize, true) |} in
  let recoveredSegmentSize := Uint64.mul (Uint64.of_int minPieces) segmentSize in
  (bytesToRecover chunkFetchOffset chunkFetchLength chunkSize whole = Some chunkSize /\
   recoveredDataOffset chunkFetchOffset whole = Some chunkFetchOffset) /\
  (recoveredSegmentSize = 0 ->
   bytesToRecover chunkFetchOffset chunkFetchLength chunkSize partial = None /\
   recoveredDataOffset chunkFetchOffset partial = None) /\
  (recoveredSegmentSize <> 0 ->
   exists startSegment endSegment,
     startSegment * recoveredSegmentSize <= chunkFetchOffset
       < (startSegment + 1) * recoveredSegmentSize /\
     (endSegment - 1) * recoveredSegmentSize < chunkFetchOffset + chunkFetchLength
       <= endSegment * recoveredSegmentSize /\
     bytesToRecover chunkFetchOffset chunkFetchLength chunkSize partial
       = Some (Uint64.mul (endSegment - startSegment) recoveredSegmentSize) /\
     recoveredDataOffset chunkFetchOffset partial
       = Some (chunkFetchOffset mod recoveredSegmentSize) /\
     (0 <= minPieces -> 0 <= segmentSize -> 0 <= chunkFetchOffset -> 0 <= chunkFetchLength ->
      chunkFetchOffset + chunkFetchLength + minPieces * segmentSize < Uint64.modulus ->
      bytesToRecover chunkFetchOffset chunkFetchLength chunkSize partial
        = Some ((endSegment - startSegment) * (minPieces * segmentSize)) /\
      recoveredDataOffset chunkFetchOffset partial
        = Some (chunkFetchOffset mod (minPieces * segmentSize)))) /\
  (bytesToRecover 10 20 120 {| MinPieces := 3; SupportsPartialEncoding := (8, true) |}
     = Some 48 /\
   recoveredDataOffset 10 {| MinPieces := 3; SupportsPartialEncoding := (8, true) |}
     = Some 10).
Proof.
  intros whole partial rss. split; [|split; [|split]].
  - split; reflexivity.
  - intros Hz.
    unfold bytesToRecover, segmentsForRecovery, recoveredDataOffset, Uint64.rem.
    simpl. fold rss. rewrite Hz. split; reflexivity.
  - intros Hne.
    destruct (recoveredSegmentSize_pos minPieces segmentSize Hne) as [Hpos Hlt].
    fold rss in Hpos, Hlt.
    assert (Hb : bytesToRecover chunkFetchOffset chunkFetchLength chunkSize partial
                 = Some (Uint64.mul
                           ((chunkFetchOffset + chunkFetchLength + rss - 1) / rss
                            - chunkFetchOffset / rss) rss)).
    { unfold bytesToRecover, segmentsForRecovery. simpl. fold rss.
      destruct (Z.eqb_spec rss 0) as [|_]; [contradiction|].
      by rewrite Uint64_mul_wrap_l. }
    assert (Ho : recoveredDataOffset chunkFetchOffset partial
                 = Some (chunkFetchOffset mod rss)).
    { unfold recoveredDataOffset, Uint64.rem. simpl. fold rss.
      destruct (Z.eqb_spec rss 0) as [|_]; [contradiction|]. reflexivity. }
    pose proof (floor_segment chunkFetchOffset rss Hpos) as Hs.
    pose proof (ceil_segment (chunkFetchOffset + chunkFetchLength) rss Hpos) as He.
    exists (chunkFetchOffset / rss),
           ((chunkFetchOffset + chunkFetchLength + rss - 1) / rss).
    split; [exact Hs|]. split; [exact He|]. split; [exact Hb|]. split; [exact Ho|].
    intros Hm Hseg Hoff Hlen Hfit.
    assert (Hrss : rss = minPieces * segmentSize).
    { apply recoveredSegmentSize_exact; unfold Uint64.modulus in *; lia. }
    rewrite Hb, Ho, <- Hrss. split; [|reflexivity].
    f_equal. unfold Uint64.mul. apply Uint64_wrap_id.
    unfold Uint64.in_range, Uint64.modulus in *.
    set (s := chunkFetchOffset / rss) in *.
    set (e := (chunkFetchOffset + chunkFetchLength + rss - 1) / rss) in *.
    assert (0 <= s) by (apply Z.div_pos; lia).
    assert (s <= e) by nia.
    nia.
  - split; reflexivity.
Qed.

(** ** returnMemory *)

Lemma Uint64_mul_of_int_exact (n size : Z) :
  0 <= n -> 0 <= size -> n * size < Uint64.modulus ->
  Uint64.mul (Uint64.of_int n) size = n * size.
Proof. apply recoveredSegmentSize_exact. Qed.

Lemma maxMemory_cases (u : unfinishedDownloadChunk) :
  maxMemory u =
  if recoveryComplete u
  then Uint64.mul (Uint64.of_int (piecesRegistered u)) (staticPieceSize u)
  else if MinPieces (erasureCode u) <=? piecesCompleted u
       then Uint64.mul (Uint64.of_int (GoInt.add (piecesCompleted u) (piecesRegistered u)))
                       (staticPieceSize u)
       else Uint64.mul (Uint64.of_int (GoInt.add (workersRemaining u) (piecesCompleted u)))
                       (staticPieceSize u).
Proof. unfold maxMemory. destruct (recoveryComplete u), (MinPieces (erasureCode u) <=? piecesCompleted u);
    reflexivity.
Qed.

Lemma maxMemory_range (u : unfinishedDownloadChunk) : Uint64.in_range (maxMemory u).
Proof.
  rewrite maxMemory_cases.
  destruct (recoveryComplete u), (MinPieces (erasureCode u) <=? piecesCompleted u);
    apply Uint64_wrap_range.
Qed.

(** C3, as the code has it.  [returnMemory] returns to the memory manager
    what [memoryAllocated] exceeds [maxMemory] by, and nothing otherwise;
    afterwards [memoryAllocated] is the smaller of the two, so it never
    grows.  [maxMemory] has three cases, in Go's arithmetic:
    [piecesRegistered * pieceSize] once [recoveryComplete] is set; else
    [(piecesCompleted + piecesRegistered) * pieceSize] once [piecesCompleted]
    has reached [MinPieces]; else [(workersRemaining + piecesCompleted) *
    pieceSize].  Where the counts are not negative and the products fit
    64 bits these are the products in the integers. *)
Theorem returnMemory_returns_excess (s : store) :
  let u := chunk s in
  let r := returnMemory s in
  let u' := chunk (final_store r) in
  let limit :=
    if recoveryComplete u
    then Uint64.mul (Uint64.of_int (piecesRegistered u)) (staticPieceSize u)
    else if MinPieces (erasureCode u) <=? piecesCompleted u
         then Uint64.mul (Uint64.of_int (GoInt.add (piecesCompleted u) (piecesRegistered u)))
                         (staticPieceSize u)
         else Uint64.mul (Uint64.of_int (GoInt.add (workersRemaining u) (piecesCompleted u)))
                         (staticPieceSize u) in
  Uint64.in_range (memoryAllocated u) ->
  (exists log, r = Done tt (final_store r) log) /\
  totalReturned (final_log r) = Z.max 0 (memoryAllocated u - limit) /\
  memoryAllocated u' = Z.min (memoryAllocated u) limit /\
  memoryAllocated u' <= memoryAllocated u /\
  (0 <= workersRemaining u -> 0 <= piecesCompleted u -> 0 <= piecesRegistered u ->
   0 <= staticPieceSize u ->
   workersRemaining u + piecesCompleted u + piecesRegistered u <= GoInt.max_int ->
   (workersRemaining u + piecesCompleted u + piecesRegistered u) * staticPieceSize u
     < Uint64.modulus ->
   limit =
     if recoveryComplete u
     then piecesRegistered u * staticPieceSize u
     else if MinPieces (erasureCode u) <=? piecesCompleted u
          then (piecesCompleted u + piecesRegistered u) * staticPieceSize u
          else (workersRemaining u + piecesCompleted u) * staticPieceSize u).
Proof.
  intros u r u' limit Hrange. subst r u'.
  assert (Hlimit : limit = maxMemory u) by (symmetry; apply maxMemory_cases).
  pose proof (maxMemory_range u) as Hmax. rewrite <- Hlimit in Hmax.
  rewrite returnMemory_run. fold u. rewrite <- Hlimit.
  unfold Uint64.in_range in *.
  split; [|split; [|split; [|split]]].
  - destruct (Z.ltb_spec limit (memoryAllocated u)); simpl; eauto.
  - destruct (Z.ltb_spec limit (memoryAllocated u)); simpl.
    + unfold totalReturned, Uint64.sub. simpl.
      rewrite Uint64_wrap_id by (unfold Uint64.in_range; lia). lia.
    + unfold totalReturned. simpl. lia.
  - destruct (Z.ltb_spec limit (memoryAllocated u)); simpl; fold u; lia.
  - destruct (Z.ltb_spec limit (memoryAllocated u)); simpl; fold u; lia.
  - intros Hwr Hpc Hpr Hps Hsum Hprod. subst limit.
    unfold GoInt.max_int in Hsum.
    unfold GoInt.add.
    rewrite !GoInt_wrap_id
      by (unfold GoInt.in_range, GoInt.min_int, GoInt.max_int; lia).
    destruct (recoveryComplete u), (MinPieces (erasureCode u) <=? piecesCompleted u);
      apply Uint64_mul_of_int_exact; try lia; nia.
Qed.

(** C3, as the spec words it, fails on a chunk that has its [MinPieces]
    pieces and is not recovered yet: with 5 workers, 3 pieces completed and
    1 registered, pieces of 40 bytes and 320 bytes allocated, the spec's
    formula allows (5 + 3) * 40 = 320 bytes, so nothing would be returned;
    [returnMemory] keeps (3 + 1) * 40 = 160 and returns 160. *)
Lemma returnMemory_spec_formula_counterexample :
  spec_usedMemory (chunk recoveringStore) = 320 /\
  totalReturned (final_log (returnMemory recoveringStore)) = 160 /\
  memoryAllocated (chunk (final_store (returnMemory recoveringStore))) = 160 /\
  ~ (totalReturned (final_log (returnMemory recoveringStore))
       = Z.max 0 (memoryAllocated (chunk recoveringStore)
                  - spec_usedMemory (chunk recoveringStore)) /\
     memoryAllocated (chunk (final_store (returnMemory recoveringStore)))
       = Z.min (memoryAllocated (chunk recoveringStore))
               (spec_usedMemory (chunk recoveringStore))).
Proof.
  repeat split; try reflexivity.
  intros [H _]. vm_compute in H. discriminate H.
Qed.

(** ** Memory of a failed chunk *)

Lemma cleanUp_of_failed_chunk (s : store) :
  let u := chunk s in
  let u' := chunk (final_store (managedCleanUp s)) in
  failed u' = true ->
  failed u = false \/ recoveryComplete u = true ->
  memoryAllocated u' =
    Z.min (memoryAllocated u)
          (Uint64.mul (Uint64.of_int (piecesRegistered u)) (staticPieceSize u)).
Proof.
  intros u u' Hf' Hpre. subst u u'. cleanup_at s. rewrite Hrun in *. simpl in *.
  rewrite Hmem.
  assert (Hlimit :
    maxMemory (if newlyFailed (chunk s) then set_recoveryComplete true (chunk s)
               else chunk s)
    = Uint64.mul (Uint64.of_int (piecesRegistered (chunk s))) (staticPieceSize (chunk s))).
  { destruct (newlyFailed (chunk s)) eqn:Hnew; [reflexivity|].
    rewrite Hfailed, orb_false_r in Hf'.
    destruct Hpre as [Hpre|Hpre]; [congruence|].
    rewrite maxMemory_cases, Hpre. reflexivity. }
  rewrite Hlimit.
  destruct (Z.ltb_spec
    (Uint64.mul (Uint64.of_int (piecesRegistered (chunk s))) (staticPieceSize (chunk s)))
    (memoryAllocated (chunk s))); lia.
Qed.

(** C7, as the code has it.  After the event whose [managedCleanUp] runs on
    the chunk as it gets failed, [memoryAllocated] is at most
    [piecesRegistered * pieceSize] (Go's product): memory for the pieces
    that workers still have registered is kept.  It is 0 where no piece is
    registered. *)
Theorem failed_chunk_keeps_registered_memory (DEBUG : bool) (e : event) (s : store) :
  let u := chunk s in
  let u' := chunk (next DEBUG e s) in
  ends_with_cleanup e = true ->
  is_Failed u = false ->
  is_Failed u' = true ->
  0 <= memoryAllocated u ->
  memoryAllocated u' =
    Z.min (memoryAllocated u)
          (Uint64.mul (Uint64.of_int (piecesRegistered u)) (staticPieceSize u)) /\
  (piecesRegistered u = 0 -> memoryAllocated u' = 0).
Proof.
  intros u u' He Hf Hf' Hmem. subst u u'. unfold is_Failed in *.
  assert (Hmin : memoryAllocated (chunk (next DEBUG e s)) =
    Z.min (memoryAllocated (chunk s))
      (Uint64.mul (Uint64.of_int (piecesRegistered (chunk s))) (staticPieceSize (chunk s)))).
  { unfold next in *. destruct e; try discriminate He.
    - simpl in *. apply cleanUp_of_failed_chunk; auto.
    - simpl in *. rewrite managedRemoveWorker_run in *.
      match goal with
      | |- context [managedCleanUp ?x] =>
          apply (cleanUp_of_failed_chunk x); [exact Hf' | left; exact Hf]
      end.
    - destruct (exec_recover_final DEBUG s) as [Hs _]. rewrite Hs in *. clear Hs.
      rewrite threadedRecoverLogicalData_run in *. simpl in *.
      destruct (recoveredDataOffset _ _) as [dataOffset|]; simpl in *;
        [destruct (destination (chunk s)) as [d|]; simpl in *;
         [destruct (WritePieces d _ _ _ _ _) as [err|]; simpl in *|]|];
        rewrite ?managedFinalizeRecovery_run in *; simpl in *;
        match goal with
        | |- context [managedCleanUp ?x] =>
            apply (cleanUp_of_failed_chunk x); [exact Hf' | auto]
        end. }
  split; [exact Hmin|].
  intros Hpr. rewrite Hmin, Hpr. vm_compute (Uint64.of_int 0).
  unfold Uint64.mul. rewrite Z.mul_0_l. vm_compute (Uint64.wrap 0). lia.
Qed.

(** C7, as the spec words it, fails on a chunk with 3 workers left, one of
    them fetching a piece, and 120 bytes allocated: the removal of a worker
    fails the chunk (2 workers cannot deliver 3 pieces) and the memory of
    the registered piece, 40 bytes, stays allocated. *)
Lemma failed_chunk_memory_counterexample :
  is_Failed (chunk fetchingStore) = false /\
  is_Failed (chunk (next false EvRemoveWorker fetchingStore)) = true /\
  memoryAllocated (chunk (next false EvRemoveWorker fetchingStore)) = 40 /\
  memoryAllocated (chunk (next false EvRemoveWorker fetchingStore)) <> 0.
Proof. repeat split; try reflexivity. vm_compute. discriminate. Qed.

(** ** workersRemaining *)







(** * The theorems at work on the example chunk *)

Lemma bytesToRecover_recoveredDataOffset_witness :
  exists startSegment endSegment,
    startSegment * 24 <= 10 < (startSegment + 1) * 24 /\
    (endSegment - 1) * 24 < 10 + 20 <= endSegment * 24 /\
    bytesToRecover 10 20 120 exampleCoder
      = Some ((endSegment - startSegment) * (3 * 8)) /\
    recoveredDataOffset 10 exampleCoder = Some (10 mod (3 * 8)).
Proof.
  destruct (bytesToRecover_recoveredDataOffset_spec 10 20 120 8 3) as (_ & _ & H & _).
  assert (Hne : Uint64.mul (Uint64.of_int 3) 8 <> 0) by (vm_compute; lia).
  destruct (H Hne) as (startSegment & endSegment & Hs & He & _ & _ & Hfit).
  exists startSegment, endSegment.
  split; [exact Hs|]. split; [exact He|].
  apply Hfit; unfold Uint64.modulus; lia.
Defined.

Lemma returnMemory_returns_excess_witness :
  totalReturned (final_log (returnMemory recoveringStore)) = Z.max 0 (320 - 160) /\
  memoryAllocated (chunk (final_store (returnMemory recoveringStore))) = Z.min 320 160.
Proof.
  assert (Hr : Uint64.in_range (memoryAllocated (chunk recoveringStore)))
    by (unfold Uint64.in_range, Uint64.modulus; simpl; lia).
  destruct (returnMemory_returns_excess recoveringStore Hr) as (_ & Ht & Hm & _).
  split; [exact Ht | exact Hm].
Defined.

Lemma piecesCompleted_counts_completedPieces_witness :
  Forall (fun s' => piecesCompleted (chunk s') = popcount (completedPieces (chunk s')))
         (trace true [EvMarkPieceCompleted 1; EvCleanUp; EvMarkPieceCompleted 2]
            fetchingStore).
Proof.
  assert (Hlen : Z.of_nat (length (completedPieces (chunk fetchingStore)))
                 <= GoInt.max_int) by (unfold GoInt.max_int; simpl; lia).
  assert (Hc : counter_consistent (chunk fetchingStore)) by reflexivity.
  apply (piecesCompleted_counts_completedPieces true fetchingStore Hlen Hc).
  simpl. repeat split; lia.
Defined.

Lemma recovery_finished_witness :
  chunksRemaining (dl (final_store (threadedRecoverLogicalData recoveringStore))) = 1 - 1 /\
  markedComplete (final_log (threadedRecoverLogicalData recoveringStore)) = true /\
  physicalChunkData (chunk (final_store (threadedRecoverLogicalData recoveringStore)))
    = None.
Proof.
  destruct (recovery_finished recoveringStore acceptingDestination 10
              eq_refl eq_refl eq_refl) as (_ & Hp & _ & Hc & Hm & _).
  split; [exact Hc|]. split; [|exact Hp].
  rewrite Hm, Hc. reflexivity.
Defined.

Lemma write_error_fails_chunk_witness :
  failed (chunk (final_store (threadedRecoverLogicalData brokenStore))) = true /\
  downloadFailures (final_log (threadedRecoverLogicalData brokenStore))
    = [Errorf_chunkFailed 7 (errOther "disk full")] /\
  is_Done (chunk (run false [EvCleanUp; EvFinalizeRecovery]
                    (final_store (threadedRecoverLogicalData brokenStore)))) = false.
Proof.
  destruct (write_error_fails_chunk false brokenStore brokenDestination 10
              (errOther "disk full") eq_refl eq_refl eq_refl)
    as (_ & Hf & Hd & _ & _ & _ & Hrun).
  split; [exact Hf|]. split; [exact Hd|].
  apply (Hrun [EvCleanUp; EvFinalizeRecovery]).
Defined.

Lemma failed_chunk_keeps_registered_memory_witness :
  memoryAllocated (chunk (next false EvRemoveWorker fetchingStore)) = Z.min 120 40.
Proof.
  assert (Hm : 0 <= memoryAllocated (chunk fetchingStore)) by (simpl; lia).
  exact (proj1 (failed_chunk_keeps_registered_memory false EvRemoveWorker fetchingStore
                  eq_refl eq_refl eq_refl Hm)).
Defined.


Lemma fail_is_final_witness :
  recoveryComplete (chunk (next false EvRemoveWorker fetchingStore)) = true.
Proof.
  destruct (fail_is_final false errNotEnoughWorkers fetchingStore)
    as (_ & _ & _ & _ & _ & _ & Hinv).
  apply (Hinv EvRemoveWorker fetchingStore).
  - simpl. discriminate.
  - reflexivity.
Defined.

(** * Further properties of the chunk's operations *)


Lemma maxMemory_ext (u u' : unfinishedDownloadChunk) :
  erasureCode u' = erasureCode u ->
  staticPieceSize u' = staticPieceSize u ->
  piecesRegistered u' = piecesRegistered u ->
  piecesCompleted u' = piecesCompleted u ->
  workersRemaining u' = workersRemaining u ->
  recoveryComplete u' = recoveryComplete u ->
  maxMemory u' = maxMemory u.
Proof. intros H1 H2 H3 H4 H5 H6. unfold maxMemory. by rewrite H1, H2, H3, H4, H5, H6. Qed.

Lemma managedCleanUp_settled (s : store) :
  newlyFailed (chunk s) = false ->
  (maxMemory (chunk s) <? memoryAllocated (chunk s)) = false ->
  failed (chunk s) = true \/ standbyWorkersRequired (chunk s) = false
    \/ workersStandby (chunk s) = [] ->
  managedCleanUp s = Done tt s [].
Proof.
  intros Hnew Hmem Hrest. destruct s as [u d]. simpl in *.
  unfold managedCleanUp. unfold_M. simpl.
  unfold newlyFailed in Hnew. rewrite Hnew. simpl.
  rewrite returnMemory_run. simpl. rewrite Hmem. simpl.
  destruct (failed u) eqn:Hf; [reflexivity|]. simpl.
  unfold standbyWorkersRequired in Hrest.
  destruct Hrest as [Hrest|[Hrest|Hrest]]; [discriminate| |].
  - rewrite Hrest. reflexivity.
  - destruct (negb _ && _); simpl; [|reflexivity].
    rewrite Hrest. simpl. destruct u; simpl in *; subst; reflexivity.
Qed.

(** X1.  [managedCleanUp] is idempotent: called again right after itself it
    changes no field of the chunk or the download and makes no call (no
    failure reported, no memory returned, no worker started). *)
Theorem managedCleanUp_idempotent (s : store) :
  managedCleanUp (final_store (managedCleanUp s))
  = Done tt (final_store (managedCleanUp s)) [].
Proof.
  destruct (managedCleanUp_effect s)
    as (s' & log & Hrun & Hdl & Hframe & Hcp & Hpc & Hwr & Hfailed & Hrc
        & Hpcd & Hdest & Hmem & Hstandby & _).
  rewrite Hrun. simpl.
  destruct Hframe as (Hec & Hidx & Hps & Hod & Hpu & Hpr).
  assert (Hsum : (GoInt.add (workersRemaining (chunk s')) (piecesCompleted (chunk s'))
                  <? MinPieces (erasureCode (chunk s')))
                 = (GoInt.add (workersRemaining (chunk s)) (piecesCompleted (chunk s))
                    <? MinPieces (erasureCode (chunk s))))
    by (rewrite Hec, Hwr, Hpc; reflexivity).
  assert (Hreq : standbyWorkersRequired (chunk s') = standbyWorkersRequired (chunk s))
    by (unfold standbyWorkersRequired; rewrite Hec, Hod, Hpr, Hpc; reflexivity).
  assert (Hmax : maxMemory (chunk s')
                 = maxMemory (if newlyFailed (chunk s)
                              then set_recoveryComplete true (chunk s) else chunk s)).
  { destruct (newlyFailed (chunk s)) eqn:Hnew.
    - apply maxMemory_ext; simpl; auto. rewrite Hrc. apply orb_true_r.
    - apply maxMemory_ext; auto. rewrite Hrc. apply orb_false_r. }
  apply managedCleanUp_settled.
  - unfold newlyFailed in *. rewrite Hsum, Hfailed.
    destruct (_ <? MinPieces _), (failed (chunk s)); reflexivity.
  - rewrite Hmax, Hmem.
    destruct (Z.ltb_spec
      (maxMemory (if newlyFailed (chunk s) then set_recoveryComplete true (chunk s)
                  else chunk s)) (memoryAllocated (chunk s))) as [Hlt|Hge].
    + apply Z.ltb_irrefl.
    + apply Z.ltb_ge. exact Hge.
  - rewrite Hfailed, Hreq, Hstandby.
    destruct (failed (chunk s) || newlyFailed (chunk s)); simpl; [auto|].
    destruct (standbyWorkersRequired (chunk s)); simpl; auto.
Qed.

Lemma managedCleanUp_no_write (s : store) :
  destinationWrites (final_log (managedCleanUp s)) = [].
Proof.
  unfold managedCleanUp. unfold_M. simpl.
  destruct (GoInt.add (workersRemaining (chunk s)) (piecesCompleted (chunk s))
            <? MinPieces (erasureCode (chunk s)));
    destruct (failed (chunk s)) eqn:Hf; simpl; rewrite ?fail_run; simpl;
    rewrite returnMemory_run; simpl;
    match goal with
    | |- context [maxMemory ?v <? memoryAllocated (chunk s)] =>
        destruct (maxMemory v <? memoryAllocated (chunk s))
    end; simpl; rewrite ?Hf; simpl;
    repeat (match goal with
            | |- context [?a <=? ?b] => destruct (a <=? b)
            | |- context [?a <? ?b] => destruct (a <? b)
            end; simpl);
    rewrite ?copy_loop; simpl;
    change (fun (w : worker) (s1 : store) => Done tt s1 [GoPerformDownloadChunkJob w])
      with (fun w => emit (GoPerformDownloadChunkJob w));
    rewrite ?for_each_dispatch; simpl; try reflexivity;
    unfold destinationWrites; simpl;
    induction (workersStandby (chunk s)); simpl; auto.
Qed.

Lemma destinationWrites_app l1 l2 :
  destinationWrites (l1 ++ l2) = destinationWrites l1 ++ destinationWrites l2.
Proof. unfold destinationWrites. apply omap_app. Qed.

Lemma workersDispatched_app l1 l2 :
  workersDispatched (l1 ++ l2) = workersDispatched l1 ++ workersDispatched l2.
Proof. unfold workersDispatched. apply omap_app. Qed.

Lemma totalReturned_app l1 l2 :
  totalReturned (l1 ++ l2) = totalReturned l1 + totalReturned l2.
Proof.
  unfold totalReturned. rewrite memoryReturned_app.
  induction (memoryReturned l1) as [|x l IH]; simpl; lia.
Qed.


Lemma managedCleanUp_log (s : store) :
  let u := chunk s in
  let r := managedCleanUp s in
  let u' := chunk (final_store r) in
  ((memoryReturned (final_log r) = [] /\ memoryAllocated u' = memoryAllocated u) \/
   (exists limit, Uint64.in_range limit /\ limit < memoryAllocated u /\
      memoryReturned (final_log r) = [Uint64.sub (memoryAllocated u) limit] /\
      memoryAllocated u' = limit)) /\
  ((workersDispatched (final_log r) = [] /\ workersStandby u' = workersStandby u) \/
   (failed u' = false /\ workersDispatched (final_log r) = workersStandby u /\
    workersStandby u' = [])) /\
  (destination u = None -> destination u' = None) /\
  (failed u = true -> downloadFailures (final_log r) = []).
Proof.
  intros u r u'. subst u r u'. cleanup_at s. rewrite Hrun. simpl.
  split; [|split; [|split]].
  - rewrite Hreturned, Hmem.
    match goal with |- context [?l <? ?m] => destruct (Z.ltb_spec l m) as [Hlt|Hge] end.
    + right. eexists. split; [apply maxMemory_range|]. split; [exact Hlt|]. split; reflexivity.
    + left. split; reflexivity.
  - rewrite Hdispatched, Hstandby, Hfailed.
    destruct (failed (chunk s) || newlyFailed (chunk s)); simpl; [left; auto|].
    destruct (standbyWorkersRequired (chunk s)); simpl; [right|left]; auto.
  - intros Hd. rewrite Hdest, Hd. destruct (newlyFailed (chunk s)); reflexivity.
  - intros Hf. rewrite Hfailures. unfold newlyFailed. rewrite Hf.
    rewrite andb_false_r. reflexivity.
Qed.


Ltac cleanup_cases s :=
  unfold managedCleanUp; unfold_M; simpl;
  destruct (GoInt.add (workersRemaining (chunk s)) (piecesCompleted (chunk s))
            <? MinPieces (erasureCode (chunk s)));
  let Hf := fresh "Hf" in
  destruct (failed (chunk s)) eqn:Hf; simpl; rewrite ?fail_run; simpl;
  rewrite returnMemory_run; simpl;
  match goal with
  | |- context [maxMemory ?v <? memoryAllocated (chunk s)] =>
      destruct (maxMemory v <? memoryAllocated (chunk s))
  end; simpl; rewrite ?Hf; simpl;
  repeat (match goal with
          | |- context [?a <=? ?b] => destruct (a <=? b)
          | |- context [?a <? ?b] => destruct (a <? b)
          end; simpl);
  rewrite ?copy_loop; simpl;
  change (fun (w : worker) (s1 : store) => Done tt s1 [GoPerformDownloadChunkJob w])
    with (fun w => emit (GoPerformDownloadChunkJob w));
  rewrite ?for_each_dispatch; simpl.

Lemma unwritten_refl u : unwritten u u.
Proof. unfold unwritten. repeat split. Qed.

Lemma unwritten_trans u1 u2 u3 : unwritten u1 u2 -> unwritten u2 u3 -> unwritten u1 u3.
Proof. unfold unwritten. intros H1 H2. intuition congruence. Qed.

Lemma managedCleanUp_unwritten (s : store) :
  unwritten (chunk s) (chunk (final_store (managedCleanUp s))).
Proof. cleanup_cases s; unfold unwritten; repeat split. Qed.

(** An event that ends with [managedCleanUp] is some calls [pre], which
    neither return memory nor start workers, followed by [managedCleanUp] on
    a store [x] that has the memory, the standby list and the unwritten
    fields of the first store. *)
Lemma cleanup_event_shape DEBUG e s :
  ends_with_cleanup e = true ->
  exists x pre,
    final_store (exec DEBUG e s) = final_store (managedCleanUp x) /\
    final_log (exec DEBUG e s) = pre ++ final_log (managedCleanUp x) /\
    unwritten (chunk s) (chunk x) /\
    memoryAllocated (chunk x) = memoryAllocated (chunk s) /\
    workersStandby (chunk x) = workersStandby (chunk s) /\
    memoryReturned pre = [] /\
    workersDispatched pre = [] /\
    (failed (chunk s) = true -> failed (chunk x) = true) /\
    (destination (chunk s) = None ->
     destination (chunk x) = None /\ destinationWrites pre = [] /\ downloadFailures pre = []).
Proof.
  intros He. destruct e; try discriminate He.
  - exists s, []. cbn [exec app]. repeat split; auto.
  - exists {| chunk := set_workersRemaining (GoInt.decr (workersRemaining (chunk s))) (chunk s);
             dl := dl s |}, [].
    cbn [exec app]. rewrite managedRemoveWorker_run. repeat split; auto.
  - destruct (exec_recover_final DEBUG s) as [-> ->].
    rewrite threadedRecoverLogicalData_run. cbv zeta.
    destruct (recoveredDataOffset _ _) as [dataOffset|];
      [destruct (destination (chunk s)) as [d|] eqn:Hdest;
       [destruct (WritePieces d _ _ _ _ _) as [err|]|]|].
    + exists (final_store (fail err s)),
        (DestinationWrite dataOffset (staticWriteOffset (chunk s))
           (staticFetchLength (chunk s)) :: final_log (fail err s)).
      cbn [final_store final_log]. rewrite fail_run. cbn [final_store final_log].
      repeat split; auto; discriminate.
    + exists (final_store (managedFinalizeRecovery s)),
        (DestinationWrite dataOffset (staticWriteOffset (chunk s))
           (staticFetchLength (chunk s)) :: final_log (managedFinalizeRecovery s)).
      cbn [final_store final_log]. rewrite managedFinalizeRecovery_run.
      cbn [final_store final_log].
      destruct (chunksRemaining (dl s) - 1 =? 0);
        repeat split; auto; discriminate.
    + exists s, []. cbn [final_store final_log app]. repeat split; auto.
    + exists s, []. cbn [final_store final_log app]. repeat split; auto.
Qed.

(** What the log of one event holds, by kind of call, and the fields the
    calls go with. *)
Lemma exec_log DEBUG e s :
  let u := chunk s in
  let r := exec DEBUG e s in
  let u' := chunk (final_store r) in
  ((memoryReturned (final_log r) = [] /\ memoryAllocated u' = memoryAllocated u) \/
   (exists limit, Uint64.in_range limit /\ limit < memoryAllocated u /\
      memoryReturned (final_log r) = [Uint64.sub (memoryAllocated u) limit] /\
      memoryAllocated u' = limit)) /\
  ((workersDispatched (final_log r) = [] /\ workersStandby u' = workersStandby u) \/
   (failed u' = false /\ workersDispatched (final_log r) = workersStandby u /\
    workersStandby u' = [])) /\
  (destination u = None -> destinationWrites (final_log r) = [] /\ destination u' = None) /\
  (failed u = true -> not_fail e -> destination u = None ->
   downloadFailures (final_log r) = []).
Proof.
  intros u r u'. subst u r u'.
  destruct (ends_with_cleanup e) eqn:He.
  - destruct (cleanup_event_shape DEBUG e s He)
      as (x & pre & -> & -> & _ & Hma & Hws & Hpm & Hpw & Hpf & Hpd).
    pose proof (managedCleanUp_log x) as (Hm & Hs & Hd & Hf). cbv zeta in Hm, Hs, Hd, Hf.
    pose proof (managedCleanUp_no_write x) as Hw.
    rewrite memoryReturned_app, workersDispatched_app, destinationWrites_app,
      downloadFailures_app, Hpm, Hpw, Hw, <- Hma, <- Hws.
    cbn [app]. split; [exact Hm|]. split; [exact Hs|]. split.
    + intros Hnone. destruct (Hpd Hnone) as (Hx & -> & _). auto.
    + intros Hfl _ Hnone. destruct (Hpd Hnone) as (_ & _ & ->). auto.
  - destruct e as [err| | | |p| |]; try discriminate He.
    + rewrite (fail_run err s : exec DEBUG (EvFail err) s = _).
      cbn [final_store final_log chunk]. repeat split; auto. contradiction.
    + rewrite (managedFinalizeRecovery_run s : exec DEBUG EvFinalizeRecovery s = _).
      cbn [final_store final_log chunk].
      destruct (chunksRemaining (dl s) - 1 =? 0); repeat split; auto.
    + cbn [exec].
      destruct (Z.leb_spec (Z.of_nat (length (completedPieces (chunk s)))) p).
      * rewrite markPieceCompleted_panics by lia. cbn [final_store final_log].
        repeat split; auto.
      * rewrite markPieceCompleted_run by lia. cbv zeta. cbn [final_store final_log chunk].
        destruct (DEBUG && _); repeat split; auto.
    + rewrite (returnMemory_run s : exec DEBUG EvReturnMemory s = _).
      destruct (Z.ltb_spec (maxMemory (chunk s)) (memoryAllocated (chunk s))) as [Hlt|Hge];
        cbn [final_store final_log chunk]; repeat split; auto.
      right. eexists. split; [apply maxMemory_range|]. split; [exact Hlt|].
      split; reflexivity.
Qed.

Lemma run_cons DEBUG e es s : run DEBUG (e :: es) s = run DEBUG es (next DEBUG e s).
Proof. reflexivity. Qed.

(** X3.  Memory is accounted for over every sequence of operations: the
    bytes returned to the memory manager and the bytes the chunk still holds
    add up to what it held at first, and its allocation never grows or
    goes below zero. *)
Theorem memory_is_conserved (DEBUG : bool) (es : list event) (s : store) :
  Uint64.in_range (memoryAllocated (chunk s)) ->
  totalReturned (effects DEBUG es s) + memoryAllocated (chunk (run DEBUG es s))
    = memoryAllocated (chunk s) /\
  0 <= memoryAllocated (chunk (run DEBUG es s)) <= memoryAllocated (chunk s).
Proof.
  revert s. induction es as [|e es IH]; intros s Hr.
  - unfold Uint64.in_range in Hr. simpl. unfold totalReturned. simpl. lia.
  - rewrite run_cons. simpl effects. rewrite totalReturned_app.
    pose proof (exec_log DEBUG e s) as (Hm & _). cbv zeta in Hm.
    fold (next DEBUG e s) in Hm.
    unfold Uint64.in_range in *.
    destruct Hm as [[Hret Hsame]|(limit & Hl & Hlt & Hret & Hnew)].
    + destruct (IH (next DEBUG e s)) as [IH1 IH2];
        [unfold Uint64.in_range; rewrite Hsame; exact Hr|].
      unfold totalReturned at 1. rewrite Hret. simpl. lia.
    + destruct (IH (next DEBUG e s)) as [IH1 IH2];
        [unfold Uint64.in_range in *; rewrite Hnew; lia|].
      unfold totalReturned at 1. rewrite Hret. simpl.
      unfold Uint64.sub. rewrite Uint64_wrap_id by (unfold Uint64.in_range; lia).
      lia.
Qed.

(** X4.  Over every sequence of operations the standby workers are started
    at most once: either none is started and the list is as it was, or
    exactly the workers of the list are started, once each and in its order,
    and the list ends empty. *)
Theorem standby_workers_dispatched_once (DEBUG : bool) (es : list event) (s : store) :
  (workersDispatched (effects DEBUG es s) = [] /\
   workersStandby (chunk (run DEBUG es s)) = workersStandby (chunk s)) \/
  (workersDispatched (effects DEBUG es s) = workersStandby (chunk s) /\
   workersStandby (chunk (run DEBUG es s)) = []).
Proof.
  revert s. induction es as [|e es IH]; intros s.
  - left. split; reflexivity.
  - rewrite run_cons. simpl effects. rewrite workersDispatched_app.
    pose proof (exec_log DEBUG e s) as (_ & Hs & _). cbv zeta in Hs.
    fold (next DEBUG e s) in Hs.
    destruct Hs as [[Hd Hsame]|(_ & Hd & Hempty)]; rewrite Hd.
    + rewrite <- Hsame. simpl. apply IH.
    + right. destruct (IH (next DEBUG e s)) as [[H1 H2]|[H1 H2]];
        rewrite H1, ?Hempty, app_nil_r; split; congruence.
Qed.

(** X5.  A failed chunk starts no worker, whatever operations follow, and
    its standby list stays as it is. *)
Theorem failed_chunk_dispatches_nothing (DEBUG : bool) (es : list event) (s : store) :
  failed (chunk s) = true ->
  workersDispatched (effects DEBUG es s) = [] /\
  workersStandby (chunk (run DEBUG es s)) = workersStandby (chunk s).
Proof.
  revert s. induction es as [|e es IH]; intros s Hf.
  - split; reflexivity.
  - rewrite run_cons. simpl effects. rewrite workersDispatched_app.
    pose proof (exec_log DEBUG e s) as (_ & Hs & _). cbv zeta in Hs.
    fold (next DEBUG e s) in Hs.
    destruct (next_effect DEBUG e s) as (_ & Hsticky & _).
    specialize (Hsticky Hf).
    destruct Hs as [[Hd Hsame]|(Hnf & _)]; [|congruence].
    destruct (IH (next DEBUG e s) Hsticky) as [IH1 IH2].
    rewrite Hd, IH1, IH2. split; [reflexivity | exact Hsame].
Qed.



(** X7.  No sequence of operations clears [failed] or [recoveryComplete];
    a chunk that is Done stays Done unless it is failed. *)
Theorem flags_are_never_cleared (DEBUG : bool) (es : list event) (s : store) :
  (failed (chunk s) = true -> failed (chunk (run DEBUG es s)) = true) /\
  (recoveryComplete (chunk s) = true -> recoveryComplete (chunk (run DEBUG es s)) = true) /\
  (is_Done (chunk s) = true ->
   is_Done (chunk (run DEBUG es s)) = true \/ is_Failed (chunk (run DEBUG es s)) = true).
Proof.
  destruct (run_sticky DEBUG es s) as [Hf Hrc].
  split; [exact Hf|]. split; [exact Hrc|].
  unfold is_Done, is_Failed. intros Hd.
  apply andb_true_iff in Hd as [Hr _]. rewrite (Hrc Hr).
  destruct (failed (chunk (run DEBUG es s))); auto.
Qed.







Lemma next_unwritten DEBUG e s : unwritten (chunk s) (chunk (next DEBUG e s)).
Proof.
  unfold next. destruct (ends_with_cleanup e) eqn:He.
  - destruct (cleanup_event_shape DEBUG e s He) as (x & pre & -> & _ & Hu & _).
    apply (unwritten_trans _ (chunk x)); [exact Hu | apply managedCleanUp_unwritten].
  - destruct e as [err| | | |p| |]; try discriminate He.
    + rewrite (fail_run err s : exec DEBUG (EvFail err) s = _).
      unfold unwritten. repeat split.
    + rewrite (managedFinalizeRecovery_run s : exec DEBUG EvFinalizeRecovery s = _).
      unfold unwritten. repeat split.
    + cbn [exec].
      destruct (Z.leb_spec (Z.of_nat (length (completedPieces (chunk s)))) p).
      * rewrite markPieceCompleted_panics by lia. apply unwritten_refl.
      * rewrite markPieceCompleted_run by lia. unfold unwritten. repeat split.
    + rewrite (returnMemory_run s : exec DEBUG EvReturnMemory s = _).
      destruct (_ <? _); unfold unwritten; repeat split.
Qed.

(** X8.  No sequence of operations writes a field that is set at creation
    (erasure coder, indices, sizes, offsets, overdrive, priority and the
    like), nor [pieceUsage] or [piecesRegistered]. *)
Theorem static_fields_are_never_written (DEBUG : bool) (es : list event) (s : store) :
  unwritten (chunk s) (chunk (run DEBUG es s)).
Proof.
  revert s. induction es as [|e es IH]; intros s.
  - apply unwritten_refl.
  - rewrite run_cons.
    apply (unwritten_trans _ (chunk (next DEBUG e s))); [apply next_unwritten | apply IH].
Qed.


(** X2.  After [managedCleanUp], [managedRemoveWorker] or
    [threadedRecoverLogicalData] (however it ends: written, write error or
    panic) a further [managedCleanUp] finds nothing to do: the clean-up they
    end with, deferred in the last one, has run in full. *)
Theorem cleanUp_is_complete (DEBUG : bool) (e : event) (s : store) :
  ends_with_cleanup e = true ->
  managedCleanUp (next DEBUG e s) = Done tt (next DEBUG e s) [].
Proof.
  intros He. unfold next.
  destruct (cleanup_event_shape DEBUG e s He) as (x & pre & -> & _).
  apply managedCleanUp_idempotent.
Qed.

(** X9.  For an index within [completedPieces], the sanity check of debug
    builds calls [build.Critical] exactly when, after the update,
    [piecesCompleted] differs from the number of [true] entries, and passes
    these two numbers; it changes no field, and other builds stay silent. *)
Theorem sanity_check_is_exact (p : Z) (s : store) :
  0 <= p < Z.of_nat (length (completedPieces (chunk s))) ->
  Z.of_nat (length (completedPieces (chunk s))) <= GoInt.max_int ->
  let r := markPieceCompleted true p s in
  let u' := chunk (final_store r) in
  final_store (markPieceCompleted false p s) = final_store r /\
  final_log (markPieceCompleted false p s) = [] /\
  final_log r =
    (if popcount (completedPieces u') =? piecesCompleted u' then []
     else [Critical (popcount (completedPieces u')) (piecesCompleted u')]).
Proof.
  intros Hp Hlen r u'. subst r u'.
  rewrite !markPieceCompleted_run by lia. simpl.
  rewrite count_loop by (rewrite ?length_insert; lia).
  rewrite Z.add_0_l.
  repeat split. destruct (_ =? _); reflexivity.
Qed.

(** X10.  [markPieceCompleted] does not look at the entry it sets: on a
    piece that is completed already, with the counter right before, the
    slice stays as it is and [piecesCompleted] is one too many; debug builds
    report it. *)
Theorem completing_a_piece_twice (DEBUG : bool) (p : Z) (s : store) :
  0 <= p ->
  Z.of_nat (length (completedPieces (chunk s))) < GoInt.max_int ->
  completedPieces (chunk s) !! Z.to_nat p = Some true ->
  counter_consistent (chunk s) ->
  let r := markPieceCompleted DEBUG p s in
  let u' := chunk (final_store r) in
  completedPieces u' = completedPieces (chunk s) /\
  piecesCompleted u' = popcount (completedPieces u') + 1 /\
  final_log r =
    (if DEBUG then [Critical (popcount (completedPieces u')) (piecesCompleted u')] else []).
Proof.
  intros Hp Hlen Hi Hc r u'. subst r u'. unfold counter_consistent in Hc.
  assert (Hlt : p < Z.of_nat (length (completedPieces (chunk s)))).
  { apply lookup_lt_Some in Hi. lia. }
  pose proof (popcount_bounds (completedPieces (chunk s))) as Hb.
  rewrite (markPieceCompleted_run DEBUG p s Hlt). simpl.
  rewrite (list_insert_id _ _ _ Hi).
  rewrite count_loop by lia. rewrite Z.add_0_l.
  assert (Hincr : GoInt.incr (piecesCompleted (chunk s))
                  = popcount (completedPieces (chunk s)) + 1).
  { rewrite Hc. unfold GoInt.incr, GoInt.add. apply GoInt_wrap_id.
    unfold GoInt.in_range, GoInt.min_int, GoInt.max_int in *. lia. }
  rewrite Hincr. split; [reflexivity|]. split; [reflexivity|].
  destruct (Z.eqb_spec (popcount (completedPieces (chunk s)))
              (popcount (completedPieces (chunk s)) + 1)); [lia|].
  destruct DEBUG; reflexivity.
Qed.

(** X11.  [markPieceCompleted] panics on an index past the end of
    [completedPieces], before anything is written; on an index within it
    returns, sets that entry and no other, and keeps the length. *)
Theorem markPieceCompleted_bounds (DEBUG : bool) (p : Z) (s : store) :
  0 <= p ->
  let r := markPieceCompleted DEBUG p s in
  let cp := completedPieces (chunk s) in
  let cp' := completedPieces (chunk (final_store r)) in
  (Z.of_nat (length cp) <= p -> r = Panic s []) /\
  (p < Z.of_nat (length cp) ->
   (exists log, r = Done tt (final_store r) log) /\
   length cp' = length cp /\
   cp' !! Z.to_nat p = Some true /\
   (forall j, j <> Z.to_nat p -> cp' !! j = cp !! j)).
Proof.
  intros Hp r cp cp'. subst r cp cp'. split.
  - intros Hge. apply markPieceCompleted_panics. exact Hge.
  - intros Hlt. rewrite (markPieceCompleted_run DEBUG p s Hlt). simpl.
    split; [eauto|]. split; [apply length_insert|]. split.
    + apply list_lookup_insert_eq. lia.
    + intros j Hj. apply list_lookup_insert_ne. congruence.
Qed.

(** X12.  Without partial encoding [recoveredDataOffset] is the fetch
    offset.  With it, the result is the position of the fetch offset within
    its segment: less than [recoveredSegmentSize], not more than the fetch
    offset, and a whole number of segments before it; a
    [recoveredSegmentSize] of zero is a division by zero. *)
Theorem recoveredDataOffset_in_segment (chunkFetchOffset : Z) (rs : ErasureCoder) :
  0 <= chunkFetchOffset ->
  let recoveredSegmentSize :=
    Uint64.mul (Uint64.of_int (MinPieces rs)) (fst (SupportsPartialEncoding rs)) in
  (snd (SupportsPartialEncoding rs) = false ->
   recoveredDataOffset chunkFetchOffset rs = Some chunkFetchOffset) /\
  (snd (SupportsPartialEncoding rs) = true -> recoveredSegmentSize = 0 ->
   recoveredDataOffset chunkFetchOffset rs = None) /\
  (snd (SupportsPartialEncoding rs) = true -> recoveredSegmentSize <> 0 ->
   exists dataOffset,
     recoveredDataOffset chunkFetchOffset rs = Some dataOffset /\
     0 <= dataOffset < recoveredSegmentSize /\
     dataOffset <= chunkFetchOffset /\
     (chunkFetchOffset - dataOffset) mod recoveredSegmentSize = 0).
Proof.
  intros Hoff rss. subst rss. unfold recoveredDataOffset, Uint64.rem.
  destruct rs as [m [seg partial]]. simpl.
  split; [|split].
  - intros ->. reflexivity.
  - intros -> ->. reflexivity.
  - intros -> Hne.
    destruct (recoveredSegmentSize_pos m seg Hne) as [Hpos _].
    destruct (Z.eqb_spec (Uint64.mul (Uint64.of_int m) seg) 0) as [|_]; [contradiction|].
    simpl. eexists. split; [reflexivity|].
    pose proof (Z.mod_pos_bound chunkFetchOffset _ Hpos) as Hb.
    pose proof (Z.mod_le chunkFetchOffset _ Hoff Hpos) as Hle.
    split; [exact Hb|]. split; [exact Hle|].
    rewrite Zminus_mod_idemp_r, Z.sub_diag. apply Z.mod_0_l. lia.
Qed.

(** X13.  With partial encoding and sizes that fit 64 bits, the recovered
    bytes hold the range asked for: [recoveredDataOffset + fetchLength <=
    bytesToRecover]; [bytesToRecover] is a whole number of segments and less
    than two segments more than the length.  ([segmentsForRecovery] is as
    the specification gives it.) *)
Theorem recovered_bytes_cover_the_range
    (chunkFetchOffset chunkFetchLength chunkSize segmentSize minPieces : Z) :
  let rs := {| MinPieces := minPieces; SupportsPartialEncoding := (segmentSize, true) |} in
  let recoveredSegmentSize := minPieces * segmentSize in
  0 < minPieces -> 0 < segmentSize ->
  0 <= chunkFetchOffset -> 0 <= chunkFetchLength ->
  chunkFetchOffset + chunkFetchLength + recoveredSegmentSize < Uint64.modulus ->
  exists bytes dataOffset,
    bytesToRecover chunkFetchOffset chunkFetchLength chunkSize rs = Some bytes /\
    recoveredDataOffset chunkFetchOffset rs = Some dataOffset /\
    dataOffset + chunkFetchLength <= bytes /\
    bytes mod recoveredSegmentSize = 0 /\
    bytes < chunkFetchLength + 2 * recoveredSegmentSize.
Proof.
  intros rs rss Hm Hseg Hoff Hlen Hfit. subst rs rss.
  assert (Hrss : Uint64.mul (Uint64.of_int minPieces) segmentSize = minPieces * segmentSize).
  { apply recoveredSegmentSize_exact; unfold Uint64.modulus in *; nia. }
  assert (Hpos : 0 < minPieces * segmentSize) by nia.
  unfold bytesToRecover, recoveredDataOffset, segmentsForRecovery, Uint64.rem. simpl.
  rewrite Hrss.
  destruct (Z.eqb_spec (minPieces * segmentSize) 0) as [|_]; [lia|].
  set (rss := minPieces * segmentSize) in *.
  pose proof (floor_segment chunkFetchOffset rss Hpos) as Hs.
  pose proof (ceil_segment (chunkFetchOffset + chunkFetchLength) rss Hpos) as He.
  set (st := chunkFetchOffset / rss) in *.
  set (en := (chunkFetchOffset + chunkFetchLength + rss - 1) / rss) in *.
  assert (Hst : 0 <= st) by (apply Z.div_pos; lia).
  assert (Hse : st <= en) by nia.
  assert (Hb : Uint64.mul (Uint64.wrap (en - st)) rss = (en - st) * rss).
  { rewrite Uint64_mul_wrap_l. unfold Uint64.mul. apply Uint64_wrap_id.
    unfold Uint64.in_range, Uint64.modulus in *. nia. }
  rewrite Hb. eexists _, _. split; [reflexivity|]. split; [reflexivity|].
  assert (Hmod : chunkFetchOffset mod rss = chunkFetchOffset - st * rss).
  { subst st. rewrite Z.mod_eq by lia. lia. }
  rewrite Hmod. split; [nia|]. split; [apply Z.mod_mul; lia | nia].
Qed.

Lemma removeWorker_failed (DEBUG : bool) (s : store) :
  failed (chunk (next DEBUG EvRemoveWorker s))
  = failed (chunk s)
    || (GoInt.add (GoInt.decr (workersRemaining (chunk s))) (piecesCompleted (chunk s))
        <? MinPieces (erasureCode (chunk s))).
Proof.
  unfold next. simpl. rewrite managedRemoveWorker_run.
  match goal with |- context [managedCleanUp ?x] => cleanup_at x end.
  rewrite Hrun. simpl. rewrite Hfailed. unfold newlyFailed. simpl.
  destruct (failed (chunk s)); simpl; [reflexivity|].
  apply andb_true_r.
Qed.

Lemma removals_fail (DEBUG : bool) (n : nat) (s : store) :
  let w := workersRemaining (chunk s) in
  let c := piecesCompleted (chunk s) in
  GoInt.in_range w -> GoInt.in_range (w + c) ->
  GoInt.min_int <= w - Z.of_nat n -> GoInt.min_int <= w - Z.of_nat n + c ->
  failed (chunk (run DEBUG (replicate n EvRemoveWorker) s))
  = failed (chunk s)
    || ((0 <? Z.of_nat n) && (w - Z.of_nat n + c <? MinPieces (erasureCode (chunk s)))).
Proof.
  revert s. induction n as [|n IH]; intros s w c Hw Hwc Hmin Hminc.
  - simpl. rewrite orb_false_r. reflexivity.
  - change (replicate (S n) EvRemoveWorker) with (EvRemoveWorker :: replicate n EvRemoveWorker).
    rewrite run_cons.
    pose proof (next_effect DEBUG EvRemoveWorker s)
      as ((Hec & _) & _ & _ & _ & Hwr & _ & Hcp & Hpc).
    cbv zeta in Hwr.
    assert (Hdecr : GoInt.decr w = w - 1).
    { unfold GoInt.decr, GoInt.sub. apply GoInt_wrap_id.
      unfold GoInt.in_range in *. lia. }
    fold w in Hwr. rewrite Hdecr in Hwr. fold c in Hpc.
    rewrite IH; rewrite ?Hwr, ?Hpc, ?Hec;
      try (unfold GoInt.in_range in *; lia).
    rewrite removeWorker_failed. fold w c. rewrite Hdecr.
    unfold GoInt.add. rewrite GoInt_wrap_id by (unfold GoInt.in_range in *; lia).
    destruct (failed (chunk s)); simpl; [reflexivity|].
    destruct (Z.ltb_spec 0 (Z.of_nat n)); simpl;
      destruct (Z.ltb_spec (w - 1 + c) (MinPieces (erasureCode (chunk s))));
      destruct (Z.ltb_spec (w - 1 - Z.of_nat n + c) (MinPieces (erasureCode (chunk s))));
      destruct (Z.ltb_spec 0 (Z.of_nat (S n)));
      destruct (Z.ltb_spec (w - Z.of_nat (S n) + c) (MinPieces (erasureCode (chunk s))));
      simpl; try reflexivity; lia.
Qed.

(** X14.  From a chunk that is not failed, [n >= 1] calls of
    [managedRemoveWorker] leave it failed exactly if the workers left and
    the pieces completed are then fewer than [MinPieces] (the counts staying
    within [int]). *)
Theorem removing_workers_fails_the_chunk (DEBUG : bool) (n : nat) (s : store) :
  let w := workersRemaining (chunk s) in
  let c := piecesCompleted (chunk s) in
  (0 < n)%nat ->
  failed (chunk s) = false ->
  GoInt.in_range w -> GoInt.in_range (w + c) ->
  GoInt.min_int <= w - Z.of_nat n -> GoInt.min_int <= w - Z.of_nat n + c ->
  (failed (chunk (run DEBUG (replicate n EvRemoveWorker) s)) = true
   <-> w - Z.of_nat n + c < MinPieces (erasureCode (chunk s))).
Proof.
  intros w c Hn Hf Hw Hwc Hmin Hminc.
  rewrite (removals_fail DEBUG n s Hw Hwc Hmin Hminc). fold w c. rewrite Hf. simpl.
  destruct (Z.ltb_spec 0 (Z.of_nat n)); [|lia]. simpl.
  destruct (Z.ltb_spec (w - Z.of_nat n + c) (MinPieces (erasureCode (chunk s))));
    split; intros; try lia; try reflexivity; discriminate.
Qed.

Lemma wipe_wipe (data : pieces) : wipe (wipe data) = wipe data.
Proof.
  destruct data as [l|]; [|reflexivity].
  rewrite !wipe_Some. by rewrite length_replicate.
Qed.

(** X15.  [fail] does not check whether the chunk is failed already: a
    second call changes no field and reports its error to the download
    again. *)
Theorem fail_again (err1 err2 : error) (s : store) :
  let s1 := final_store (fail err1 s) in
  fail err2 s1 = Done tt s1 [DownloadFail (Errorf_chunkFailed (staticChunkIndex (chunk s)) err2)].
Proof.
  destruct s as [u d]. destruct u. cbv zeta.
  rewrite (fail_run err1). cbn [final_store]. rewrite (fail_run err2).
  cbn. rewrite wipe_wipe. reflexivity.
Qed.

(** X16.  A chunk that is not failed and has its [MinPieces] pieces, with
    no negative worker count, is Done after a recovery whose write succeeds:
    [WritePieces] was called once, with [recoveredDataOffset],
    [staticWriteOffset] and [staticFetchLength]; no failure is reported and
    no standby worker is started. *)
Theorem successful_recovery_is_done (s : store) (d : downloadDestination) (dataOffset : Z) :
  let u := chunk s in
  destination u = Some d ->
  recoveredDataOffset (staticFetchOffset u) (erasureCode u) = Some dataOffset ->
  WritePieces d (erasureCode u) (physicalChunkData u) dataOffset
    (staticWriteOffset u) (staticFetchLength u) = None ->
  failed u = false ->
  GoInt.in_range (MinPieces (erasureCode u)) ->
  MinPieces (erasureCode u) <= piecesCompleted u ->
  0 <= workersRemaining u ->
  workersRemaining u + piecesCompleted u <= GoInt.max_int ->
  let r := threadedRecoverLogicalData s in
  let u' := chunk (final_store r) in
  is_Done u' = true /\
  destinationWrites (final_log r)
    = [(dataOffset, staticWriteOffset u, staticFetchLength u)] /\
  downloadFailures (final_log r) = [] /\
  workersDispatched (final_log r) = [] /\
  workersStandby u' = workersStandby u.
Proof.
  intros u Hd Hoff Hw Hf Hint Hmin Hwr Hsum r u'. subst r u' u.
  rewrite threadedRecoverLogicalData_run. simpl. rewrite Hoff, Hd, Hw.
  rewrite managedFinalizeRecovery_run. simpl.
  match goal with |- context [managedCleanUp ?x] =>
    pose proof (managedCleanUp_no_write x) as Hnw; cleanup_at x end.
  rewrite Hrun in *. simpl in *.
  assert (Hnf : newlyFailed
    (set_recoveryComplete true (set_physicalChunkData None (chunk s))) = false).
  { unfold newlyFailed. simpl. rewrite Hf.
    unfold GoInt.add. rewrite GoInt_wrap_id
      by (unfold GoInt.in_range, GoInt.min_int, GoInt.max_int in *; lia).
    destruct (Z.ltb_spec (workersRemaining (chunk s) + piecesCompleted (chunk s))
                (MinPieces (erasureCode (chunk s)))); [lia | reflexivity]. }
  assert (Hreq : standbyWorkersRequired
    (set_recoveryComplete true (set_physicalChunkData None (chunk s))) = false).
  { unfold standbyWorkersRequired. simpl.
    destruct (Z.leb_spec (MinPieces (erasureCode (chunk s))) (piecesCompleted (chunk s)));
      [reflexivity | lia]. }
  rewrite Hnf, Hreq, ?andb_false_r in *.
  unfold is_Done. rewrite Hrc, Hfailed, Hf. simpl.
  split; [reflexivity|].
  rewrite destinationWrites_app, downloadFailures_app, workersDispatched_app.
  rewrite Hnw, Hfailures, Hdispatched, Hstandby.
  destruct (chunksRemaining (dl s) - 1 =? 0); repeat split; reflexivity.
Qed.

(** ** The further properties at work on the example chunk *)

Lemma cleanUp_is_complete_witness :
  managedCleanUp (next false EvRemoveWorker fetchingStore)
  = Done tt (next false EvRemoveWorker fetchingStore) [].
Proof. exact (cleanUp_is_complete false EvRemoveWorker fetchingStore eq_refl). Defined.

Lemma memory_is_conserved_witness :
  totalReturned (effects false [EvRemoveWorker; EvCleanUp] fetchingStore)
  + memoryAllocated (chunk (run false [EvRemoveWorker; EvCleanUp] fetchingStore))
  = 120.
Proof.
  assert (Hr : Uint64.in_range (memoryAllocated (chunk fetchingStore)))
    by (unfold Uint64.in_range, Uint64.modulus; simpl; lia).
  exact (proj1 (memory_is_conserved false [EvRemoveWorker; EvCleanUp] fetchingStore Hr)).
Defined.

Lemma failed_chunk_dispatches_nothing_witness :
  workersDispatched
    (effects false [EvCleanUp; EvRemoveWorker] (next false EvRemoveWorker fetchingStore))
  = [].
Proof.
  exact (proj1 (failed_chunk_dispatches_nothing false [EvCleanUp; EvRemoveWorker]
                  (next false EvRemoveWorker fetchingStore) eq_refl)).
Defined.


Lemma flags_are_never_cleared_witness :
  failed (chunk (run false [EvFinalizeRecovery; EvCleanUp]
                   (next false EvRemoveWorker fetchingStore))) = true.
Proof.
  apply (proj1 (flags_are_never_cleared false [EvFinalizeRecovery; EvCleanUp]
                  (next false EvRemoveWorker fetchingStore))).
  reflexivity.
Defined.

Lemma sanity_check_is_exact_witness :
  final_log (markPieceCompleted true 1 fetchingStore) = [].
Proof.
  assert (Hp : 0 <= 1 < Z.of_nat (length (completedPieces (chunk fetchingStore))))
    by (simpl; lia).
  assert (Hlen : Z.of_nat (length (completedPieces (chunk fetchingStore)))
                 <= GoInt.max_int) by (unfold GoInt.max_int; simpl; lia).
  destruct (sanity_check_is_exact 1 fetchingStore Hp Hlen) as (_ & _ & H).
  rewrite H. reflexivity.
Defined.

Lemma completing_a_piece_twice_witness :
  piecesCompleted
    (chunk (final_store
              (markPieceCompleted true 1 (next true (EvMarkPieceCompleted 1) fetchingStore))))
  = 1 + 1.
Proof.
  assert (Hp : 0 <= 1) by lia.
  assert (Hlen : Z.of_nat (length (completedPieces
                   (chunk (next true (EvMarkPieceCompleted 1) fetchingStore))))
                 < GoInt.max_int) by (unfold GoInt.max_int; simpl; lia).
  destruct (completing_a_piece_twice true 1
              (next true (EvMarkPieceCompleted 1) fetchingStore) Hp Hlen eq_refl eq_refl)
    as (_ & H & _).
  rewrite H. reflexivity.
Defined.

Lemma markPieceCompleted_bounds_witness :
  markPieceCompleted true 7 fetchingStore = Panic fetchingStore [].
Proof.
  assert (Hp : 0 <= 7) by lia.
  apply (proj1 (markPieceCompleted_bounds true 7 fetchingStore Hp)).
  simpl. lia.
Defined.

Lemma recoveredDataOffset_in_segment_witness :
  exists dataOffset,
    recoveredDataOffset 34 exampleCoder = Some dataOffset /\
    0 <= dataOffset < 24 /\ dataOffset <= 34 /\ (34 - dataOffset) mod 24 = 0.
Proof.
  assert (Hoff : 0 <= 34) by lia.
  destruct (recoveredDataOffset_in_segment 34 exampleCoder Hoff) as (_ & _ & H).
  apply H.
  - reflexivity.
  - vm_compute. lia.
Defined.

Lemma recovered_bytes_cover_the_range_witness :
  exists bytes dataOffset,
    bytesToRecover 10 20 120 exampleCoder = Some bytes /\
    recoveredDataOffset 10 exampleCoder = Some dataOffset /\
    dataOffset + 20 <= bytes /\
    bytes mod (3 * 8) = 0 /\
    bytes < 20 + 2 * (3 * 8).
Proof.
  apply (recovered_bytes_cover_the_range 10 20 120 8 3);
    unfold Uint64.modulus; lia.
Defined.

Lemma removing_workers_fails_the_chunk_witness :
  failed (chunk (run false (replicate 1 EvRemoveWorker) fetchingStore)) = true
  <-> 3 - 1 + 0 < 3.
Proof.
  apply (removing_workers_fails_the_chunk false 1 fetchingStore);
    try reflexivity;
    unfold GoInt.in_range, GoInt.min_int, GoInt.max_int; simpl; lia.
Defined.

Lemma successful_recovery_is_done_witness :
  is_Done (chunk (final_store (threadedRecoverLogicalData recoveringStore))) = true /\
  destinationWrites (final_log (threadedRecoverLogicalData recoveringStore))
    = [(10, 0, 20)].
Proof.
  assert (Hint : GoInt.in_range (MinPieces (erasureCode (chunk recoveringStore))))
    by (unfold GoInt.in_range, GoInt.min_int, GoInt.max_int; simpl; lia).
  assert (Hmin : MinPieces (erasureCode (chunk recoveringStore))
                 <= piecesCompleted (chunk recoveringStore)) by (simpl; lia).
  assert (Hwr : 0 <= workersRemaining (chunk recoveringStore)) by (simpl; lia).
  assert (Hsum : workersRemaining (chunk recoveringStore)
                 + piecesCompleted (chunk recoveringStore) <= GoInt.max_int)
    by (unfold GoInt.max_int; simpl; lia).
  destruct (successful_recovery_is_done recoveringStore acceptingDestination 10
              eq_refl eq_refl eq_refl eq_refl Hint Hmin Hwr Hsum) as (Hd & Hw & _).
  split; [exact Hd | exact Hw].
Defined.
